(** * cnf2lightswitch: a shallow embedding of [cnf2lightswitch.py]

    The script reads a DIMACS CNF file and a stream of solver lines and
    prints a beamer/tikz picture: one switch per variable, one light per
    clause, one wire per literal occurrence, and one slide per solution.

    Python integers are unbounded, so they are [Z].  The adjacency
    [lit_to_clauses] is a Python list of lists, here [list (list Z)],
    updated by index.  A Python [set] of integers is a [gset Z].  The
    exceptions the script can raise are the constructors of [exn], and a
    routine that can raise returns a [result].  Every [print] call is one
    [directive]; [render] gives the exact line of text it prints. *)

From Stdlib Require Import ZArith String Ascii List Lia Floats.
From stdpp Require Import base list gmap strings pretty sorting.

Open Scope Z_scope.

(** ** Exceptions *)

Inductive exn : Set :=
| ValueError | IndexError | AssertionError | OverflowError | ZeroDivisionError.

Inductive result (A : Type) : Type :=
| Ok (a : A)
| Raise (e : exn).
Arguments Ok {A} a.
Arguments Raise {A} e.

#[global] Instance result_ret : MRet result := fun A a => Ok a.
#[global] Instance result_bind : MBind result := fun A B f r =>
  match r with
  | Ok a => f a
  | Raise e => Raise e
  end.

(** A Python [for] loop whose body may raise, threading the mutated state. *)
Fixpoint for_each {A S : Type} (xs : list A) (body : A → S → result S) (s : S)
  : result S :=
  match xs with
  | [] => Ok s
  | x :: xs' => s' ← body x s; for_each xs' body s'
  end.

(** ** The Python builtins the script calls *)

Module Py.

(** [str.split()] separates on runs of whitespace; over ASCII these are the
    characters 9 to 13, 28 to 31 and the space. *)
Definition is_space (c : ascii) : bool :=
  let k := nat_of_ascii c in
  ((9 <=? k)%nat && (k <=? 13)%nat) || ((28 <=? k)%nat && (k <=? 32)%nat).

Definition flush (cur : string) : list string :=
  match cur with
  | EmptyString => []
  | _ => [cur]
  end.

Fixpoint split_from (cur : string) (s : string) : list string :=
  match s with
  | EmptyString => flush cur
  | String c s' =>
      if is_space c then flush cur ++ split_from EmptyString s'
      else split_from (cur +:+ String c EmptyString) s'
  end.

Definition split (s : string) : list string := split_from EmptyString s.

Definition digit_of (c : ascii) : option Z :=
  let k := nat_of_ascii c in
  if ((48 <=? k)%nat && (k <=? 57)%nat)%bool then Some (Z.of_nat k - 48) else None.

(** Digits of a decimal literal; a single underscore may sit between two
    digits, as [int] allows. *)
Fixpoint digits (acc : Z) (after_digit : bool) (s : string) : option Z :=
  match s with
  | EmptyString => if after_digit then Some acc else None
  | String c s' =>
      match digit_of c with
      | Some d => digits (10 * acc + d) true s'
      | None =>
          if (Ascii.eqb c "_" && after_digit)%bool then digits acc false s'
          else None
      end
  end.

(** [int(s)] on a token without whitespace: an optional sign, then digits. *)
Definition int (s : string) : result Z :=
  let parsed :=
    match s with
    | String "-" s' => Z.opp <$> digits 0 false s'
    | String "+" s' => digits 0 false s'
    | _ => digits 0 false s
    end in
  match parsed with
  | Some z => Ok z
  | None => Raise ValueError
  end.

(** [xs[k]]: a negative index counts from the end; outside the list it
    raises [IndexError]. *)
Definition index {A : Type} (xs : list A) (k : Z) : result nat :=
  let len := Z.of_nat (length xs) in
  if (0 <=? k) && (k <? len) then Ok (Z.to_nat k)
  else if (k <? 0) && (0 <=? len + k) then Ok (Z.to_nat (len + k))
  else Raise IndexError.

Definition getitem {A : Type} (xs : list A) (k : Z) : result A :=
  j ← index xs k;
  match xs !! j with
  | Some x => Ok x
  | None => Raise IndexError
  end.

(** Conversion of an integer to a double, rounding to nearest even;
    [OverflowError] when the result is not finite. *)
Definition float_of_int (z : Z) : result float :=
  match SpecFloat.binary_normalize 53 1024 z 0 false with
  | S754_finite s m e => Ok (SF2Prim (S754_finite s m e))
  | S754_zero s => Ok (SF2Prim (S754_zero s))
  | _ => Raise OverflowError
  end.

(** [x / k] for a double [x] and an integer [k] *)
Definition truediv (x : float) (k : Z) : result float :=
  d ← float_of_int k;
  if k =? 0 then Raise ZeroDivisionError else Ok (x / d)%float.

(** ["%d" % z] *)
Definition fmt_d (z : Z) : string := pretty z.

Definition two_digits (z : Z) : string :=
  if z <? 10 then "0" +:+ pretty z else pretty z.

(** ["%.2f" % x]: the exact value of the double rounded to hundredths,
    ties to even. *)
Definition fmt_2f (x : float) : string :=
  match Prim2SF x with
  | S754_zero s => (if s then "-" else "") +:+ "0.00"
  | S754_infinity s => (if s then "-" else "") +:+ "inf"
  | S754_nan => "nan"
  | S754_finite s m e =>
      let num := Z.pos m * 100 * 2 ^ Z.max e 0 in
      let den := 2 ^ Z.max (- e) 0 in
      let q := num / den in
      let r := num mod den in
      let h := if (den <? 2 * r) || ((den =? 2 * r) && Z.odd q) then q + 1 else q in
      (if s then "-" else "") +:+ pretty (h / 100) +:+ "." +:+ two_digits (h mod 100)
  end.

End Py.

(** ** [dimacs2index] *)

Definition dimacs2index (d : Z) : Z :=
  if d =? 0 then 0
  else if d >? 0 then d * 2
  else (- d * 2) + 1.

(** ** What the script prints *)

Inductive bend : Set := bend_left | bend_right.
Inductive face : Set := east | west.

(** One constructor per [print] call of the script. *)
Inductive directive : Type :=
| Text (s : string)
| Scalebox (scale : float)
| FirstSwitch
| NextSwitch (i : Z)
| SwitchLabel (i : Z)
| FirstLight
| NextLight (i : Z)
| Wire (c : Z) (b : bend) (v : Z) (f : face)
| SwitchState (v : Z) (slide : Z) (on : bool)
| LightState (c : Z) (slide : Z) (on : bool).

Definition newline : string := String (ascii_of_nat 10) EmptyString.

Definition bend_text (b : bend) : string :=
  match b with bend_left => "left" | bend_right => "right" end.

Definition face_text (f : face) : string :=
  match f with east => "east" | west => "west" end.

Definition render (d : directive) : string :=
  match d with
  | Text s => s
  | Scalebox scale => "    \scalebox{" +:+ Py.fmt_2f scale +:+ "}{"
  | FirstSwitch =>
      "        \node (v" +:+ Py.fmt_d 1 +:+ ") at (0, " +:+ Py.fmt_d 0
      +:+ ") {{\uncover<1>{\pgfimage[width = 1cm]{figures/switch}}}};"
  | NextSwitch i =>
      "        \node[right = of v" +:+ Py.fmt_d (i - 1) +:+ "]  (v" +:+ Py.fmt_d i
      +:+ ") {{\uncover<1>{\pgfimage[width = 1cm]{figures/switch}}}};"
  | SwitchLabel i =>
      "        \node[below = 0 of v" +:+ Py.fmt_d i +:+ "] () {v" +:+ Py.fmt_d i +:+ "};"
  | FirstLight =>
      "        \node[above = 3 of v" +:+ Py.fmt_d 1 +:+ "] (c" +:+ Py.fmt_d 1
      +:+ ") {{\uncover<1>{\pgfimage[width = 1cm]{figures/lightoff.png}}}};"
  | NextLight i =>
      "        \node[right = of c" +:+ Py.fmt_d (i - 1) +:+ "] (c" +:+ Py.fmt_d i
      +:+ ") {{\uncover<1>{\pgfimage[width = 1cm]{figures/lightoff.png}}}};"
  | Wire c b v f =>
      "        \draw (c" +:+ Py.fmt_d c +:+ ".south) edge[bend " +:+ bend_text b
      +:+ "] (v" +:+ Py.fmt_d v +:+ "." +:+ face_text f +:+ ");"
  | SwitchState v slide on =>
      "        \node () at (v" +:+ Py.fmt_d v +:+ ") {\only<" +:+ Py.fmt_d slide
      +:+ ">{\pgfimage[width = 1cm]{figures/"
      +:+ (if on then "switchon" else "switchoff") +:+ "}}} ;"
  | LightState c slide on =>
      "        \node () at (c" +:+ Py.fmt_d c +:+ ") {\only<" +:+ Py.fmt_d slide
      +:+ ">{\pgfimage[width = 1cm]{figures/"
      +:+ (if on then "lighton" else "lightoff") +:+ "}}} ;"
  end.

(** Beamer shows the argument of [\only<k>] and of [\uncover<k>] on slide
    [k] and on no other slide; material without an overlay specification
    is on every slide of the frame. *)
Inductive overlay : Set :=
| every_slide
| slide_only (k : Z).

Definition overlay_of (d : directive) : overlay :=
  match d with
  | FirstSwitch | NextSwitch _ | FirstLight | NextLight _ => slide_only 1
  | SwitchState _ slide _ | LightState _ slide _ => slide_only slide
  | _ => every_slide
  end.

Definition visible_on (d : directive) (j : Z) : bool :=
  match overlay_of d with
  | every_slide => true
  | slide_only k => j =? k
  end.

Definition latex_header (scale : float) : list directive :=
  [ Text "\documentclass{beamer}";
    Text "\usepackage{pgf, tikz}";
    Text "\usetikzlibrary{positioning}";
    Text "\begin{document}";
    Text "  \begin{frame}";
    Scalebox scale;
    Text "      \begin{tikzpicture}" ].

Definition latex_footer : list directive :=
  [ Text "      \end{tikzpicture}";
    Text "    }";
    Text "  \end{frame}";
    Text "\end{document}" ].

(** [range(2, k+1)] *)
Definition range_from_2 (k : Z) : list Z := seqZ 2 (k - 1).

Definition declare_variables (n : Z) : list directive :=
  [ Text (newline +:+ "        % variables"); FirstSwitch; SwitchLabel 1 ]
  ++ concat ((fun i => [ NextSwitch i; SwitchLabel i ]) <$> range_from_2 n).

Definition declare_clauses (m : Z) : list directive :=
  [ Text (newline +:+ "        % clauses"); FirstLight ]
  ++ (NextLight <$> range_from_2 m).

(** ** Wires and the adjacency *)

Definition link_literal_to_clause (l i : Z) : result directive :=
  if l >? 0 then
    let side := if l + 1 <? i then bend_right else bend_left in
    Ok (Wire i side l east)
  else
    if l <? 0 then
      let side := if - l >? i + 2 then bend_left else bend_right in
      Ok (Wire i side (- l) west)
    else Raise AssertionError.

(** [lit_to_clauses[k].append(i)] *)
Definition append_at (lit_to_clauses : list (list Z)) (k i : Z)
  : result (list (list Z)) :=
  j ← Py.index lit_to_clauses k;
  match lit_to_clauses !! j with
  | Some bucket => Ok (<[ j := bucket ++ [i] ]> lit_to_clauses)
  | None => Raise IndexError
  end.

(** The state of the clause loop: the adjacency and the lines printed so far. *)
Definition handle_token (i : Z) (s : string) (st : list (list Z) * list directive)
  : result (list (list Z) * list directive) :=
  l ← Py.int s;
  if negb (l =? 0) then
    adj ← append_at st.1 (dimacs2index l) i;
    w ← link_literal_to_clause l i;
    Ok (adj, st.2 ++ [w])
  else Ok st.

Definition handle_clause (clause : string) (i : Z)
  (st : list (list Z) * list directive) : result (list (list Z) * list directive) :=
  for_each (Py.split clause) (handle_token i) st.

(** ** Solutions *)

Definition handle_solution_token (lit_to_clauses : list (list Z)) (i : Z) (s : string)
  (st : gset Z * list directive) : result (gset Z * list directive) :=
  l ← Py.int s;
  if negb (l =? 0) then
    bucket ← Py.getitem lit_to_clauses (dimacs2index l);
    let satisfied_clauses := st.1 ∪ list_to_set bucket in
    if l >? 0 then Ok (satisfied_clauses, st.2 ++ [SwitchState l i true])
    else
      if l <? 0 then Ok (satisfied_clauses, st.2 ++ [SwitchState (- l) i false])
      else Raise AssertionError
  else Ok st.

(** The first loop of [handle_solution_line]: the tokens after the marker. *)
Definition solution_loop (lit_to_clauses : list (list Z)) (line : string) (i : Z)
  : result (gset Z * list directive) :=
  for_each (drop 1 (Py.split line)) (handle_solution_token lit_to_clauses i)
    (∅, [Text (newline +:+ "        % solution")]).

(** The two closing loops run over Python sets, whose iteration order the
    language leaves open; [elements] fixes one order. *)
Definition handle_solution_line (m : Z) (lit_to_clauses : list (list Z))
  (line : string) (i : Z) : result (list directive) :=
  st ← solution_loop lit_to_clauses line i;
  let satisfied_clauses : gset Z := st.1 in
  let unlit : gset Z := list_to_set (seqZ 1 m) ∖ satisfied_clauses in
  Ok (st.2
      ++ ((fun c => LightState c i true) <$> elements satisfied_clauses)
      ++ ((fun c => LightState c i false) <$> elements unlit)).

Fixpoint wait_loop (m : Z) (lit_to_clauses : list (list Z)) (stdin : list string)
  (i : Z) (out : list directive) : result (list directive) :=
  match stdin with
  | [] => Ok out
  | line :: rest =>
      if String.prefix "v " line then
        ds ← handle_solution_line m lit_to_clauses line i;
        wait_loop m lit_to_clauses rest (i + 1) (out ++ ds)
      else wait_loop m lit_to_clauses rest i out
  end.

Definition wait_for_solution (m : Z) (lit_to_clauses : list (list Z))
  (stdin : list string) : result (list directive) :=
  wait_loop m lit_to_clauses stdin 2 [].

(** ** The main program *)

(** [dimacs.readline()] until a line does not start with ["c "]; at the end
    of the file [readline] returns the empty string. *)
Fixpoint skip_comments (dimacs : list string) : string * list string :=
  match dimacs with
  | [] => (EmptyString, [])
  | line :: rest =>
      if String.prefix "c " line then skip_comments rest else (line, rest)
  end.

Definition scale_of (n m : Z) : result float :=
  if (n <=? 5) && (m <=? 5) then Ok 1%float
  else Py.truediv 5%float (Z.max n m).

(** [[[] for i in range(2*n+2)]] *)
Definition empty_adjacency (n : Z) : list (list Z) :=
  replicate (Z.to_nat (2 * n + 2)) [].

(** The loop [for line in dimacs] with its counter [i]. *)
Fixpoint read_clauses (dimacs : list string) (i : Z)
  (st : list (list Z) * list directive) : result (list (list Z) * list directive) :=
  match dimacs with
  | [] => Ok st
  | line :: rest => st' ← handle_clause line i st; read_clauses rest (i + 1) st'
  end.

(** The assertion on the problem line and the two counts read from it. *)
Definition parse_header (line : string) : result (Z * Z) :=
  if negb (String.prefix "p cnf" line) then Raise AssertionError
  else
    let header := Py.split line in
    s2 ← Py.getitem header 2;
    n ← Py.int s2;
    s3 ← Py.getitem header 3;
    m ← Py.int s3;
    Ok (n, m).

(** The script from the first [readline] on: [dimacs] holds the lines of the
    file named on the command line, [stdin] those of the standard input. *)
Definition main (dimacs stdin : list string) : result (list directive) :=
  let '(line, rest) := skip_comments dimacs in
  '(n, m) ← parse_header line;
  scale ← scale_of n m;
  let out := latex_header scale ++ declare_variables n ++ declare_clauses m in
  st ← read_clauses rest 1 (empty_adjacency n, out);
  sol ← wait_for_solution m st.1 stdin;
  Ok (st.2 ++ sol ++ latex_footer).

(** ** Vocabulary of the statements *)

(** The nonzero integers among the tokens, in order. *)
Definition literals (tokens : list string) : list Z :=
  omap (fun s => match Py.int s with
                 | Ok l => if l =? 0 then None else Some l
                 | Raise _ => None
                 end) tokens.

Definition clause_literals (clause : string) : list Z :=
  literals (Py.split clause).

Definition asserted_literals (line : string) : list Z :=
  literals (drop 1 (Py.split line)).

(** The list stored in a slot, empty when the slot does not exist, and the
    bucket of a literal. *)
Definition slot (lit_to_clauses : list (list Z)) (j : nat) : list Z :=
  default [] (lit_to_clauses !! j).

Definition bucket (lit_to_clauses : list (list Z)) (l : Z) : list Z :=
  slot lit_to_clauses (Z.to_nat (dimacs2index l)).

(** The literals of a list that are stored in slot [j]. *)
Definition stored_in (j : nat) (ls : list Z) : list Z :=
  filter (fun l => Z.to_nat (dimacs2index l) = j) ls.

(** The union of the buckets of the given literals. *)
Definition reachable (lit_to_clauses : list (list Z)) (ls : list Z) : gset Z :=
  ⋃ ((fun l => list_to_set (bucket lit_to_clauses l)) <$> ls).

(** The lines the solution loop treats, each with its slide number. *)
Definition is_solution_line (line : string) : Prop :=
  String.prefix "v " line = true.

#[global] Instance is_solution_line_dec line : Decision (is_solution_line line).
Proof. unfold is_solution_line. apply _. Defined.

Fixpoint numbered_from (i : Z) (lines : list string) : list (Z * string) :=
  match lines with
  | [] => []
  | line :: rest => (i, line) :: numbered_from (i + 1) rest
  end.

Definition solution_slides (stdin : list string) : list (Z * string) :=
  numbered_from 2 (filter is_solution_line stdin).

(** The lines the clause loop prints: one [\draw] per literal occurrence. *)
Definition is_wire (d : directive) : bool :=
  match d with
  | Wire _ _ _ _ => true
  | _ => false
  end.

(** The state directives of a slide, as opposed to its comment line. *)
Definition is_state (d : directive) : bool :=
  match d with
  | SwitchState _ _ _ | LightState _ _ _ => true
  | _ => false
  end.

(** ** A small formula, used to run the model *)

(** [p cnf 2 2] with the clauses [1 2 0] and [-1 -2 0]. *)
Definition example_clauses : list string :=
  ["1 2 0" +:+ newline; "-1 -2 0" +:+ newline].

Definition example_dimacs : list string :=
  ("c two switches" +:+ newline) :: ("p cnf 2 2" +:+ newline) :: example_clauses.

Definition example_adjacency : list (list Z) := [[]; []; [1]; [2]; [1]; [2]].

Definition example_wires : list directive :=
  [ Wire 1 bend_left 1 east; Wire 1 bend_left 2 east;
    Wire 2 bend_right 1 west; Wire 2 bend_right 2 west ].

(** The solver line [v 1 2 0] and what slide 2 shows for it. *)
Definition example_line : string := "v 1 2 0" +:+ newline.

Definition example_slide : list directive :=
  [ Text (newline +:+ "        % solution");
    SwitchState 1 2 true; SwitchState 2 2 true;
    LightState 1 2 true; LightState 2 2 false ].

(** A file that declares one clause and holds two, with a solver line. *)
Definition long_dimacs : list string :=
  [ "p cnf 1 1" +:+ newline; "1 0" +:+ newline; "1 0" +:+ newline ].

Definition long_stdin : list string := [ "v 1 0" +:+ newline ].

(** The static lines of the small formula, as [main] prints them. *)
Definition example_static : list directive :=
  latex_header 1%float ++ declare_variables 2 ++ declare_clauses 2.

(** ** Vocabulary of the further properties *)

(** Every occurrence of a nonzero literal on the lines, paired with the
    number of its line, in reading order; the first line has number [i]. *)
Fixpoint literal_occurrences (i : Z) (dimacs : list string) : list (Z * Z) :=
  match dimacs with
  | [] => []
  | line :: rest =>
      ((fun l => (i, l)) <$> clause_literals line)
      ++ literal_occurrences (i + 1) rest
  end.

Definition is_light (d : directive) : bool :=
  match d with
  | LightState _ _ _ => true
  | _ => false
  end.

Definition is_switch_state (d : directive) : bool :=
  match d with
  | SwitchState _ _ _ => true
  | _ => false
  end.




(** A line of whitespace only. *)
Fixpoint is_blank (s : string) : bool :=
  match s with
  | EmptyString => true
  | String c s' => Py.is_space c && is_blank s'
  end.

(** * Properties *)

(** ** Reasoning about [result] *)

Lemma bind_Ok {A B : Type} (r : result A) (f : A → result B) (b : B) :
  r ≫= f = Ok b ↔ ∃ a, r = Ok a ∧ f a = Ok b.
Proof.
  destruct r as [a|e]; simpl; split.
  - intros H. exists a. done.
  - intros (a' & [= <-] & H). done.
  - done.
  - intros (a' & [=] & _).
Qed.

Ltac inv_bind H :=
  let a := fresh "a" in
  let Ha := fresh "Ha" in
  apply bind_Ok in H; destruct H as (a & Ha & H).

(** ** The literal indexer *)

Lemma dimacs2index_pos (l : Z) : 0 < l → dimacs2index l = 2 * l.
Proof.
  intros Hl. unfold dimacs2index.
  destruct (Z.eqb_spec l 0); [lia|].
  destruct (Z.gtb_spec l 0); lia.
Qed.

Lemma dimacs2index_neg (l : Z) : l < 0 → dimacs2index l = 2 * Z.abs l + 1.
Proof.
  intros Hl. unfold dimacs2index.
  destruct (Z.eqb_spec l 0); [lia|].
  destruct (Z.gtb_spec l 0); lia.
Qed.

Lemma dimacs2index_inj (l l' : Z) :
  l ≠ 0 → l' ≠ 0 → dimacs2index l = dimacs2index l' → l = l'.
Proof.
  intros Hl Hl'. unfold dimacs2index.
  destruct (Z.eqb_spec l 0), (Z.eqb_spec l' 0); try lia.
  destruct (Z.gtb_spec l 0), (Z.gtb_spec l' 0); lia.
Qed.

Lemma dimacs2index_range (n l : Z) :
  1 ≤ Z.abs l ≤ n → 2 ≤ dimacs2index l ≤ 2 * n + 1.
Proof.
  intros Hl. unfold dimacs2index.
  destruct (Z.eqb_spec l 0); [lia|].
  destruct (Z.gtb_spec l 0); lia.
Qed.

(** C3: [dimacs2index] sends 0 to 0, a positive literal [l] to [2*l] and a
    negative one to [2*|l|+1]; on the literals with [1 <= |l| <= n] the
    index is even exactly for the positive ones, a literal and its negation
    have different indices, and the map is injective. *)
Theorem dimacs2index_spec :
  dimacs2index 0 = 0
  ∧ (∀ l, 0 < l → dimacs2index l = 2 * l)
  ∧ (∀ l, l < 0 → dimacs2index l = 2 * Z.abs l + 1)
  ∧ (∀ n l, 1 ≤ Z.abs l ≤ n →
       (Z.even (dimacs2index l) = true ↔ 0 < l)
       ∧ (Z.odd (dimacs2index l) = true ↔ l < 0)
       ∧ dimacs2index l ≠ dimacs2index (- l))
  ∧ (∀ n l l', 1 ≤ Z.abs l ≤ n → 1 ≤ Z.abs l' ≤ n →
       dimacs2index l = dimacs2index l' → l = l').
Proof.
  split; [reflexivity|].
  split; [exact dimacs2index_pos|].
  split; [exact dimacs2index_neg|].
  split.
  - intros n l Hl.
    destruct (Z.lt_trichotomy l 0) as [Hs|[Hs|Hs]]; [| lia |].
    + rewrite (dimacs2index_neg l Hs), (dimacs2index_pos (- l)) by lia.
      rewrite Z.add_comm, Z.even_add_mul_2, Z.odd_add_mul_2. simpl.
      split; [split; [done | lia] | split; [done | lia]].
    + rewrite (dimacs2index_pos l Hs), (dimacs2index_neg (- l)) by lia.
      rewrite Z.even_mul, Z.odd_mul. simpl.
      split; [done | split; [split; [done | lia] | lia]].
  - intros n l l' Hl Hl'. apply dimacs2index_inj; lia.
Qed.

(** ** Loops *)

Section loops.
Context {A S : Type}.
Implicit Types (xs : list A) (body : A → S → result S).

Lemma for_each_app xs ys body s :
  for_each (xs ++ ys) body s = for_each xs body s ≫= for_each ys body.
Proof.
  revert s. induction xs as [|x xs IH]; intros s; simpl; [done|].
  destruct (body x s) as [s'|e]; simpl; [apply IH | done].
Qed.

(** An invariant of the state kept by every iteration is kept by the
    loop, and the loop raises only what an iteration raises. *)
Lemma for_each_inv (I : S → Prop) (P : exn → Prop) xs body :
  (∀ x s, x ∈ xs → I s →
     match body x s with Ok s' => I s' | Raise e => P e end) →
  ∀ s, I s → match for_each xs body s with Ok s' => I s' | Raise e => P e end.
Proof.
  induction xs as [|x xs IH]; intros Hbody s Hs; simpl; [done|].
  specialize (Hbody x s) as Hx.
  destruct (body x s) as [s'|e]; simpl.
  - apply IH.
    + intros y t Hy. apply Hbody. by right.
    + apply Hx; [by left | done].
  - apply Hx; [by left | done].
Qed.
End loops.

(** ** Tokens and slots *)

Lemma literals_cons (s : string) (tokens : list string) :
  literals (s :: tokens)
  = match Py.int s with
    | Ok l => if l =? 0 then literals tokens else l :: literals tokens
    | Raise _ => literals tokens
    end.
Proof.
  unfold literals. simpl.
  destruct (Py.int s) as [l|e]; [|done]. by destruct (l =? 0).
Qed.

Lemma elem_of_literals (l : Z) (tokens : list string) :
  l ∈ literals tokens ↔ l ≠ 0 ∧ ∃ s, s ∈ tokens ∧ Py.int s = Ok l.
Proof.
  induction tokens as [|s tokens IH].
  - split; [by intros ?%elem_of_nil | by intros (_ & s & ?%elem_of_nil & _)].
  - rewrite literals_cons. destruct (Py.int s) as [l'|e] eqn:Hs.
    + destruct (Z.eqb_spec l' 0) as [->|Hne].
      * rewrite IH. split.
        -- intros (Hl & t & Ht & Hint). split; [done|]. exists t. split; [by right | done].
        -- intros (Hl & t & Ht & Hint). split; [done|].
           apply elem_of_cons in Ht as [->|Ht]; [congruence | by exists t].
      * rewrite elem_of_cons, IH. split.
        -- intros [->|(Hl & t & Ht & Hint)].
           ++ split; [done|]. exists s. split; [by left | done].
           ++ split; [done|]. exists t. split; [by right | done].
        -- intros (Hl & t & Ht & Hint).
           apply elem_of_cons in Ht as [->|Ht]; [left; congruence | right; eauto].
    + rewrite IH. split.
      * intros (Hl & t & Ht & Hint). split; [done|]. exists t. split; [by right | done].
      * intros (Hl & t & Ht & Hint). split; [done|].
        apply elem_of_cons in Ht as [->|Ht]; [congruence | by exists t].
Qed.

Lemma literals_nonzero (l : Z) (tokens : list string) : l ∈ literals tokens → l ≠ 0.
Proof. by intros [? _]%elem_of_literals. Qed.

Lemma dimacs2index_nonneg (l : Z) : 0 ≤ dimacs2index l.
Proof.
  unfold dimacs2index.
  destruct (Z.eqb_spec l 0); [lia|]. destruct (Z.gtb_spec l 0); lia.
Qed.

Lemma index_nonneg {A : Type} (xs : list A) (k : Z) :
  0 ≤ k →
  Py.index xs k
  = if decide (Z.to_nat k < length xs)%nat then Ok (Z.to_nat k) else Raise IndexError.
Proof.
  intros Hk. unfold Py.index.
  destruct (Z.leb_spec 0 k); [|lia].
  destruct (Z.ltb_spec k (Z.of_nat (length xs))); simpl.
  - rewrite decide_True by lia. done.
  - destruct (Z.ltb_spec k 0); [lia|]. simpl. rewrite decide_False by lia. done.
Qed.

Lemma getitem_nonneg {A : Type} (xs : list A) (k : Z) :
  0 ≤ k →
  Py.getitem xs k
  = match xs !! Z.to_nat k with Some x => Ok x | None => Raise IndexError end.
Proof.
  intros Hk. unfold Py.getitem. rewrite index_nonneg by done.
  case_decide as Hlt; simpl; [done|].
  rewrite lookup_ge_None_2 by lia. done.
Qed.

Lemma append_at_nonneg (adj : list (list Z)) (k i : Z) :
  0 ≤ k →
  append_at adj k i
  = match adj !! Z.to_nat k with
    | Some b => Ok (<[ Z.to_nat k := b ++ [i] ]> adj)
    | None => Raise IndexError
    end.
Proof.
  intros Hk. unfold append_at. rewrite index_nonneg by done.
  case_decide as Hlt; simpl; [done|].
  rewrite lookup_ge_None_2 by lia. done.
Qed.

Lemma slot_insert (adj : list (list Z)) (j j' : nat) (b : list Z) :
  (j < length adj)%nat →
  slot (<[ j := b ]> adj) j' = if decide (j = j') then b else slot adj j'.
Proof.
  intros Hj. unfold slot. case_decide as Heq.
  - subst j'. by rewrite list_lookup_insert_eq.
  - by rewrite list_lookup_insert_ne.
Qed.

Lemma stored_in_cons (j : nat) (l : Z) (ls : list Z) :
  stored_in j (l :: ls)
  = if decide (Z.to_nat (dimacs2index l) = j) then l :: stored_in j ls
    else stored_in j ls.
Proof. unfold stored_in. by rewrite filter_cons. Qed.

Lemma elem_of_stored_in (j : nat) (l : Z) (ls : list Z) :
  l ∈ stored_in j ls ↔ Z.to_nat (dimacs2index l) = j ∧ l ∈ ls.
Proof. unfold stored_in. by rewrite list_elem_of_filter. Qed.

(** ** The clause loop *)

Lemma link_literal_to_clause_Ok (l i : Z) :
  l ≠ 0 → ∃ b f, link_literal_to_clause l i = Ok (Wire i b (Z.abs l) f).
Proof.
  intros Hl. unfold link_literal_to_clause.
  destruct (Z.gtb_spec l 0).
  - rewrite Z.abs_eq by lia. eauto.
  - destruct (Z.ltb_spec l 0); [|lia]. rewrite Z.abs_neq by lia. eauto.
Qed.

(** One iteration of the loop of [handle_clause], by cases on the token. *)
Lemma handle_token_Ok (i : Z) (s : string) (adj adj' : list (list Z))
  (out out' : list directive) :
  handle_token i s (adj, out) = Ok (adj', out') →
  ∃ l, Py.int s = Ok l
       ∧ ((l = 0 ∧ adj' = adj ∧ out' = out)
          ∨ (l ≠ 0 ∧ ∃ b w,
               adj !! Z.to_nat (dimacs2index l) = Some b
               ∧ adj' = <[ Z.to_nat (dimacs2index l) := b ++ [i] ]> adj
               ∧ link_literal_to_clause l i = Ok w
               ∧ out' = out ++ [w])).
Proof.
  unfold handle_token. intros H. inv_bind H. rename a into l. exists l.
  split; [done|]. simpl in H.
  destruct (Z.eqb_spec l 0) as [->|Hl]; simpl in H.
  - left. by injection H as <- <-.
  - right. split; [done|]. inv_bind H. rename a into adj1. inv_bind H.
    injection H as <- <-.
    rewrite append_at_nonneg in Ha0 by apply dimacs2index_nonneg.
    destruct (adj !! Z.to_nat (dimacs2index l)) as [b|] eqn:Hb; [|done].
    injection Ha0 as <-. by exists b, a.
Qed.

Lemma handle_tokens_Ok (i : Z) (tokens : list string) :
  ∀ adj out adj' out',
    for_each tokens (handle_token i) (adj, out) = Ok (adj', out') →
    length adj' = length adj
    ∧ (∀ j, slot adj' j
            = slot adj j ++ ((fun _ => i) <$> stored_in j (literals tokens)))
    ∧ ∃ ws, out' = out ++ ws
            ∧ Forall2 (fun l w => link_literal_to_clause l i = Ok w)
                (literals tokens) ws.
Proof.
  induction tokens as [|s tokens IH]; intros adj out adj' out' H; simpl in H.
  - injection H as <- <-. split; [done|]. split.
    + intros j. by rewrite app_nil_r.
    + exists []. by rewrite app_nil_r.
  - inv_bind H. destruct a as [adj1 out1].
    apply handle_token_Ok in Ha as (l & Hint & Hcase).
    apply IH in H as (Hlen & Hslot & ws & -> & Hws).
    rewrite literals_cons, Hint.
    destruct Hcase as [(-> & -> & ->)|(Hl & b & w & Hb & -> & Hw & ->)].
    + simpl. eauto.
    + destruct (Z.eqb_spec l 0) as [|_]; [done|].
      assert (Z.to_nat (dimacs2index l) < length adj)%nat as Hlt
        by (by eapply lookup_lt_Some).
      split; [by rewrite Hlen, length_insert|]. split.
      * intros j. rewrite Hslot, slot_insert, stored_in_cons by done.
        case_decide as Hj; simpl; [|done].
        subst j. unfold slot. rewrite Hb. simpl. by rewrite <- app_assoc.
      * exists (w :: ws). split; [by rewrite <- app_assoc|]. by constructor.
Qed.

(** The loop over the lines of the file, started at line number [i]. *)
Lemma read_clauses_Ok (dimacs : list string) :
  ∀ i adj out adj' out',
    read_clauses dimacs i (adj, out) = Ok (adj', out') →
    length adj' = length adj
    ∧ (∀ j c, c ∈ slot adj' j ↔
         c ∈ slot adj j
         ∨ ∃ (k : nat) clause l,
             dimacs !! k = Some clause ∧ c = i + Z.of_nat k
             ∧ l ∈ clause_literals clause ∧ Z.to_nat (dimacs2index l) = j)
    ∧ ∃ ws, out' = out ++ ws
            ∧ ∀ w, w ∈ ws →
                ∃ (k : nat) clause l,
                  dimacs !! k = Some clause ∧ l ∈ clause_literals clause
                  ∧ link_literal_to_clause l (i + Z.of_nat k) = Ok w.
Proof.
  induction dimacs as [|line rest IH]; intros i adj out adj' out' H; simpl in H.
  - injection H as <- <-. split; [done|]. split.
    + intros j c. split; [by left|]. intros [?|(k & ? & ? & Hk & _)]; [done|].
      by rewrite lookup_nil in Hk.
    + exists []. split; [by rewrite app_nil_r|]. by intros w ?%elem_of_nil.
  - inv_bind H. destruct a as [adj1 out1].
    apply handle_tokens_Ok in Ha as (Hlen1 & Hslot1 & ws1 & -> & Hws1).
    apply IH in H as (Hlen & Hslot & ws & -> & Hws).
    split; [congruence|]. split.
    + intros j c. rewrite Hslot, Hslot1, elem_of_app, list_elem_of_fmap. split.
      * intros [[?|(l & -> & Hl)]|(k & clause & l & Hk & -> & Hl & Hj)].
        -- by left.
        -- apply elem_of_stored_in in Hl as [Hj Hl]. right.
           exists 0%nat, line, l. split; [done|]. split; [lia | done].
        -- right. exists (S k), clause, l. split; [done|]. split; [lia | done].
      * intros [?|(k & clause & l & Hk & -> & Hl & Hj)]; [by left; left|].
        destruct k as [|k]; simpl in Hk.
        -- injection Hk as ->. left. right. exists l.
           split; [lia|]. by apply elem_of_stored_in.
        -- right. exists k, clause, l. split; [done|]. split; [lia | done].
    + exists (ws1 ++ ws). split; [by rewrite <- app_assoc|].
      intros w [Hw|Hw]%elem_of_app.
      * apply list_elem_of_lookup_1 in Hw as [idx Hidx].
        destruct (Forall2_lookup_r _ _ _ _ _ Hws1 Hidx) as (l & Hl & Hlink).
        apply list_elem_of_lookup_2 in Hl.
        exists 0%nat, line, l. rewrite Z.add_0_r. done.
      * apply Hws in Hw as (k & clause & l & Hk & Hl & Hlink).
        exists (S k), clause, l. split; [done|]. split; [done|].
        by replace (i + Z.of_nat (S k)) with (i + 1 + Z.of_nat k) by lia.
Qed.

Lemma length_empty_adjacency (n : Z) :
  length (empty_adjacency n) = Z.to_nat (2 * n + 2).
Proof. unfold empty_adjacency. apply length_replicate. Qed.

Lemma slot_empty_adjacency (n : Z) (j : nat) : slot (empty_adjacency n) j = [].
Proof.
  unfold slot, empty_adjacency.
  destruct (replicate _ _ !! j) as [b|] eqn:Hb; [|done].
  by apply lookup_replicate in Hb as [-> _].
Qed.

(** ** The solution loop *)

Lemma reachable_cons (adj : list (list Z)) (l : Z) (ls : list Z) :
  reachable adj (l :: ls) = list_to_set (bucket adj l) ∪ reachable adj ls.
Proof. done. Qed.

Lemma elem_of_reachable (adj : list (list Z)) (ls : list Z) (c : Z) :
  c ∈ reachable adj ls ↔ ∃ l, l ∈ ls ∧ c ∈ bucket adj l.
Proof.
  unfold reachable. rewrite elem_of_union_list. split.
  - intros (X & HX & Hc). apply list_elem_of_fmap in HX as (l & -> & Hl).
    exists l. split; [done|]. by apply elem_of_list_to_set in Hc.
  - intros (l & Hl & Hc). exists (list_to_set (bucket adj l)). split.
    + apply list_elem_of_fmap. by exists l.
    + by apply elem_of_list_to_set.
Qed.

(** The switch directive printed for an asserted literal. *)
Lemma handle_solution_token_Ok (adj : list (list Z)) (i : Z) (s : string)
  (sat sat' : gset Z) (out out' : list directive) :
  handle_solution_token adj i s (sat, out) = Ok (sat', out') →
  ∃ l, Py.int s = Ok l
       ∧ ((l = 0 ∧ sat' = sat ∧ out' = out)
          ∨ (l ≠ 0
             ∧ Py.getitem adj (dimacs2index l) = Ok (bucket adj l)
             ∧ sat' = sat ∪ list_to_set (bucket adj l)
             ∧ out' = out ++ [SwitchState (Z.abs l) i (bool_decide (0 < l))])).
Proof.
  unfold handle_solution_token. intros H. inv_bind H. rename a into l.
  exists l. split; [done|]. simpl in H.
  destruct (Z.eqb_spec l 0) as [->|Hl]; simpl in H.
  - left. by injection H as <- <-.
  - right. split; [done|]. inv_bind H. rename a into b.
    assert (bucket adj l = b) as Hb.
    { rewrite getitem_nonneg in Ha0 by apply dimacs2index_nonneg.
      unfold bucket, slot.
      destruct (adj !! Z.to_nat (dimacs2index l)); [|done]. by injection Ha0. }
    rewrite Hb. split; [done|].
    destruct (Z.gtb_spec l 0).
    + injection H as <- <-. rewrite Z.abs_eq, bool_decide_true by lia. done.
    + destruct (Z.ltb_spec l 0); [|lia].
      injection H as <- <-. rewrite Z.abs_neq, bool_decide_false by lia. done.
Qed.

Lemma solution_tokens_Ok (adj : list (list Z)) (i : Z) (tokens : list string) :
  ∀ sat out sat' out',
    for_each tokens (handle_solution_token adj i) (sat, out) = Ok (sat', out') →
    sat' = sat ∪ reachable adj (literals tokens)
    ∧ out' = out ++ ((fun l => SwitchState (Z.abs l) i (bool_decide (0 < l)))
                       <$> literals tokens)
    ∧ ∀ l, l ∈ literals tokens →
           Py.getitem adj (dimacs2index l) = Ok (bucket adj l).
Proof.
  induction tokens as [|s tokens IH]; intros sat out sat' out' H; simpl in H.
  - injection H as <- <-. unfold reachable. simpl.
    split; [by rewrite (right_id_L ∅ (∪))|]. split; [by rewrite app_nil_r|].
    by intros l ?%elem_of_nil.
  - inv_bind H. destruct a as [sat1 out1].
    apply handle_solution_token_Ok in Ha as (l & Hint & Hcase).
    apply IH in H as (-> & -> & Hget).
    rewrite literals_cons, Hint.
    destruct Hcase as [(-> & -> & ->)|(Hl & Hb & -> & ->)]; [done|].
    destruct (Z.eqb_spec l 0) as [|_]; [done|].
    rewrite reachable_cons, fmap_cons, <- app_assoc, (assoc_L (∪)).
    split; [done|]. split; [done|].
    intros l' [->|Hl']%elem_of_cons; [done | by apply Hget].
Qed.

(** What a solution line prints, in full. *)
Lemma handle_solution_line_Ok (m : Z) (adj : list (list Z)) (line : string)
  (i : Z) (ds : list directive) :
  handle_solution_line m adj line i = Ok ds →
  let sat := reachable adj (asserted_literals line) in
  (∃ out, solution_loop adj line i = Ok (sat, out))
  ∧ (∀ l, l ∈ asserted_literals line →
          Py.getitem adj (dimacs2index l) = Ok (bucket adj l))
  ∧ ds = [Text (newline +:+ "        % solution")]
         ++ ((fun l => SwitchState (Z.abs l) i (bool_decide (0 < l)))
               <$> asserted_literals line)
         ++ ((fun c => LightState c i true) <$> elements sat)
         ++ ((fun c => LightState c i false)
               <$> elements (list_to_set (seqZ 1 m) ∖ sat : gset Z)).
Proof.
  unfold handle_solution_line. intros H. inv_bind H. destruct a as [sat' out].
  simpl in H. injection H as <-.
  pose proof Ha as Hloop. unfold solution_loop in Ha.
  apply solution_tokens_Ok in Ha as (Hsat & -> & Hget).
  rewrite (left_id_L ∅ (∪)) in Hsat. subst sat'.
  split; [by eexists|]. split; [done|]. by rewrite <- app_assoc.
Qed.

(** ** The adjacency after the clause loop *)

(** C2: when the clause loop has run over the lines of the file, the number
    of every line is in the bucket of each nonzero literal on it, and every
    number in the bucket of a nonzero literal [l] is that of a line on which
    [l] itself, with this sign, occurs. *)
Theorem adjacency_complete (n : Z) (dimacs : list string) (out0 : list directive)
  (adj : list (list Z)) (out : list directive) :
  read_clauses dimacs 1 (empty_adjacency n, out0) = Ok (adj, out) →
  (∀ (k : nat) clause l,
     dimacs !! k = Some clause → l ∈ clause_literals clause →
     ∃ b, Py.getitem adj (dimacs2index l) = Ok b ∧ Z.of_nat k + 1 ∈ b)
  ∧ (∀ l b c,
       l ≠ 0 → Py.getitem adj (dimacs2index l) = Ok b → c ∈ b →
       ∃ (k : nat) clause,
         c = Z.of_nat k + 1 ∧ dimacs !! k = Some clause
         ∧ l ∈ clause_literals clause).
Proof.
  intros Hrun. apply read_clauses_Ok in Hrun as (Hlen & Hslot & _). split.
  - intros k clause l Hk Hl.
    assert (Z.of_nat k + 1 ∈ slot adj (Z.to_nat (dimacs2index l))) as Hin.
    { apply Hslot. right. exists k, clause, l. split; [done|]. split; [lia | done]. }
    rewrite getitem_nonneg by apply dimacs2index_nonneg. unfold slot in Hin.
    destruct (adj !! Z.to_nat (dimacs2index l)) as [b|]; simpl in Hin.
    + by exists b.
    + by apply elem_of_nil in Hin.
  - intros l b c Hl Hb Hc.
    rewrite getitem_nonneg in Hb by apply dimacs2index_nonneg.
    assert (c ∈ slot adj (Z.to_nat (dimacs2index l))) as Hin.
    { unfold slot. destruct (adj !! Z.to_nat (dimacs2index l)); [|done].
      by injection Hb as ->. }
    apply Hslot in Hin as [Hin|(k & clause & l' & Hk & -> & Hl' & Hidx)].
    { rewrite slot_empty_adjacency in Hin. by apply elem_of_nil in Hin. }
    exists k, clause. split; [lia|]. split; [done|].
    assert (l' = l) as <-; [|done].
    apply dimacs2index_inj; [by eapply literals_nonzero | done |].
    pose proof (dimacs2index_nonneg l). pose proof (dimacs2index_nonneg l'). lia.
Qed.

Lemma adjacency_complete_witness :
  (∀ (k : nat) clause l,
     example_clauses !! k = Some clause → l ∈ clause_literals clause →
     ∃ b, Py.getitem example_adjacency (dimacs2index l) = Ok b
          ∧ Z.of_nat k + 1 ∈ b)
  ∧ (∀ l b c,
       l ≠ 0 → Py.getitem example_adjacency (dimacs2index l) = Ok b → c ∈ b →
       ∃ (k : nat) clause,
         c = Z.of_nat k + 1 ∧ example_clauses !! k = Some clause
         ∧ l ∈ clause_literals clause).
Proof.
  apply (adjacency_complete 2 example_clauses [] example_adjacency example_wires).
  vm_compute. reflexivity.
Defined.

(** ** The wire router *)

(** C8: a wire for a positive literal leaves the east face and bends right
    exactly when [l + 1 < i], left otherwise; a wire for a negative literal
    leaves the west face and bends left exactly when [|l| > i + 2], right
    otherwise. *)
Theorem link_literal_to_clause_side (l i : Z) :
  l ≠ 0 →
  ∃ b f,
    link_literal_to_clause l i = Ok (Wire i b (Z.abs l) f)
    ∧ (0 < l →
         f = east ∧ (b = bend_right ↔ l + 1 < i) ∧ (b = bend_left ↔ ¬ l + 1 < i))
    ∧ (l < 0 →
         f = west ∧ (b = bend_left ↔ Z.abs l > i + 2)
         ∧ (b = bend_right ↔ ¬ Z.abs l > i + 2)).
Proof.
  intros Hl. unfold link_literal_to_clause.
  destruct (Z.gtb_spec l 0) as [Hpos|Hnpos].
  - exists (if l + 1 <? i then bend_right else bend_left), east.
    rewrite Z.abs_eq by lia.
    split; [done|]. split; [|lia]. intros _.
    destruct (Z.ltb_spec (l + 1) i); (split; [done|]);
      split; split; intros; first [done | lia | exfalso; lia].
  - destruct (Z.ltb_spec l 0) as [Hneg|?]; [|lia].
    exists (if - l >? i + 2 then bend_left else bend_right), west.
    rewrite Z.abs_neq by lia.
    split; [done|]. split; [lia|]. intros _.
    destruct (Z.gtb_spec (- l) (i + 2)); (split; [done|]);
      split; split; intros; first [done | lia | exfalso; lia].
Qed.

Lemma link_literal_to_clause_side_witness :
  ∃ b f,
    link_literal_to_clause (-4) 1 = Ok (Wire 1 b (Z.abs (-4)) f)
    ∧ (0 < -4 →
         f = east ∧ (b = bend_right ↔ -4 + 1 < 1) ∧ (b = bend_left ↔ ¬ -4 + 1 < 1))
    ∧ (-4 < 0 →
         f = west ∧ (b = bend_left ↔ Z.abs (-4) > 1 + 2)
         ∧ (b = bend_right ↔ ¬ Z.abs (-4) > 1 + 2)).
Proof. apply (link_literal_to_clause_side (-4) 1). lia. Defined.


(** ** Lights *)

Lemma elem_of_solution_lights (m : Z) (adj : list (list Z)) (line : string)
  (i : Z) (ds : list directive) (c s : Z) (on : bool) :
  handle_solution_line m adj line i = Ok ds →
  LightState c s on ∈ ds ↔
    s = i
    ∧ if on then c ∈ reachable adj (asserted_literals line)
      else 1 ≤ c ≤ m ∧ c ∉ reachable adj (asserted_literals line).
Proof.
  intros Hrun. apply handle_solution_line_Ok in Hrun as (_ & _ & ->).
  rewrite !elem_of_app, !list_elem_of_fmap, list_elem_of_singleton. split.
  - intros [?|[(l & ? & _)|[(c' & [= -> -> ->] & Hc)|(c' & [= -> -> ->] & Hc)]]];
      try done.
    + split; [done|]. by apply elem_of_elements in Hc.
    + split; [done|].
      apply elem_of_elements, elem_of_difference in Hc as [Hc Hn].
      apply elem_of_list_to_set, elem_of_seqZ in Hc. split; [lia | done].
  - intros [-> Hc]. right. right. destruct on.
    + left. exists c. split; [done|]. by apply elem_of_elements.
    + right. exists c. split; [done|]. destruct Hc as [Hc Hn].
      apply elem_of_elements, elem_of_difference. split; [|done].
      apply elem_of_list_to_set, elem_of_seqZ. lia.
Qed.

(** C1: for a solution line the set computed by the renderer is the union
    of [lit_to_clauses[dimacs2index(l)]] over the nonzero literals [l] of
    the line; slide [i] gets a light-on line for exactly the members of this
    set and a light-off line for exactly the numbers of [1..m] outside it;
    so a clause of the file, numbered within [1..m], none of whose literals
    is on the line, is shown off. *)
Theorem satisfied_clauses_correct (m : Z) (adj : list (list Z)) (line : string)
  (i : Z) (ds : list directive) :
  handle_solution_line m adj line i = Ok ds →
  let sat := reachable adj (asserted_literals line) in
  (∃ out, solution_loop adj line i = Ok (sat, out))
  ∧ (∀ c, c ∈ sat ↔
       ∃ l b, l ∈ asserted_literals line
              ∧ Py.getitem adj (dimacs2index l) = Ok b ∧ c ∈ b)
  ∧ (∀ c s on, LightState c s on ∈ ds → s = i)
  ∧ (∀ c, LightState c i true ∈ ds ↔ c ∈ sat)
  ∧ (∀ c, LightState c i false ∈ ds ↔ 1 ≤ c ≤ m ∧ c ∉ sat)
  ∧ (∀ n dimacs out0 out1 (k : nat) clause,
       read_clauses dimacs 1 (empty_adjacency n, out0) = Ok (adj, out1) →
       dimacs !! k = Some clause → Z.of_nat k + 1 ≤ m →
       (∀ l, l ∈ clause_literals clause → l ∉ asserted_literals line) →
       LightState (Z.of_nat k + 1) i false ∈ ds).
Proof.
  intros Hrun sat.
  pose proof (handle_solution_line_Ok _ _ _ _ _ Hrun) as (Hloop & Hget & _).
  assert (∀ c, c ∈ sat ↔
            ∃ l b, l ∈ asserted_literals line
                   ∧ Py.getitem adj (dimacs2index l) = Ok b ∧ c ∈ b) as Hsat.
  { intros c. unfold sat. rewrite elem_of_reachable. split.
    - intros (l & Hl & Hc). exists l, (bucket adj l). auto.
    - intros (l & b & Hl & Hb & Hc). exists l. split; [done|].
      rewrite (Hget l Hl) in Hb. by injection Hb as ->. }
  split; [done|]. split; [done|]. split; [|split; [|split]].
  - intros c s on Hin. by apply (elem_of_solution_lights _ _ _ _ _ _ _ _ Hrun) in Hin as [-> _].
  - intros c. rewrite (elem_of_solution_lights _ _ _ _ _ _ _ _ Hrun).
    split; [by intros [_ ?] | done].
  - intros c. rewrite (elem_of_solution_lights _ _ _ _ _ _ _ _ Hrun).
    split; [by intros [_ ?] | done].
  - intros n dimacs out0 out1 k clause Hread Hk Hm Hnone.
    apply (elem_of_solution_lights _ _ _ _ _ _ _ _ Hrun).
    split; [done|]. split; [lia|].
    intros (l & Hl & Hc)%elem_of_reachable.
    apply read_clauses_Ok in Hread as (_ & Hslot & _).
    apply Hslot in Hc as [Hc|(k' & clause' & l' & Hk' & Heq & Hl' & Hidx)].
    { rewrite slot_empty_adjacency in Hc. by apply elem_of_nil in Hc. }
    assert (k' = k) as -> by lia. rewrite Hk in Hk'. injection Hk' as <-.
    assert (l' = l) as ->.
    { apply dimacs2index_inj; [by eapply literals_nonzero.. |].
      pose proof (dimacs2index_nonneg l). pose proof (dimacs2index_nonneg l'). lia. }
    by apply (Hnone l).
Qed.

Lemma satisfied_clauses_correct_witness :
  let sat := reachable example_adjacency (asserted_literals example_line) in
  (∃ out, solution_loop example_adjacency example_line 2 = Ok (sat, out))
  ∧ (∀ c, c ∈ sat ↔
       ∃ l b, l ∈ asserted_literals example_line
              ∧ Py.getitem example_adjacency (dimacs2index l) = Ok b ∧ c ∈ b)
  ∧ (∀ c s on, LightState c s on ∈ example_slide → s = 2)
  ∧ (∀ c, LightState c 2 true ∈ example_slide ↔ c ∈ sat)
  ∧ (∀ c, LightState c 2 false ∈ example_slide ↔ 1 ≤ c ≤ 2 ∧ c ∉ sat)
  ∧ (∀ n dimacs out0 out1 (k : nat) clause,
       read_clauses dimacs 1 (empty_adjacency n, out0)
       = Ok (example_adjacency, out1) →
       dimacs !! k = Some clause → Z.of_nat k + 1 ≤ 2 →
       (∀ l, l ∈ clause_literals clause → l ∉ asserted_literals example_line) →
       LightState (Z.of_nat k + 1) 2 false ∈ example_slide).
Proof.
  apply (satisfied_clauses_correct 2 example_adjacency example_line 2 example_slide).
  vm_compute. reflexivity.
Defined.

(** ** Exceptions of the two loops *)

Lemma link_literal_to_clause_Raise (l i : Z) (e : exn) :
  link_literal_to_clause l i = Raise e → l = 0.
Proof.
  intros H. destruct (decide (l = 0)) as [|Hl]; [done|].
  destruct (link_literal_to_clause_Ok l i Hl) as (b & f & Hw). congruence.
Qed.

(** One iteration of the clause loop: it never fails an assertion, and with
    the literal in range and the adjacency of full length it can only fail
    on a token that is not an integer. *)
Lemma handle_token_no_assert (i : Z) (s : string)
  (st : list (list Z) * list directive) :
  handle_token i s st ≠ Raise AssertionError.
Proof.
  unfold handle_token. destruct (Py.int s) as [l|e] eqn:Hint; simpl.
  - destruct (Z.eqb_spec l 0) as [|Hl]; simpl; [done|].
    destruct (append_at st.1 (dimacs2index l) i) as [adj|e] eqn:Happ; simpl.
    + destruct (link_literal_to_clause_Ok l i Hl) as (b & f & ->). done.
    + unfold append_at in Happ.
      destruct (Py.index st.1 (dimacs2index l)) as [j|e'] eqn:Hj; simpl in Happ.
      * destruct (st.1 !! j); congruence.
      * unfold Py.index in Hj. repeat case_match; congruence.
  - unfold Py.int in Hint. repeat case_match; congruence.
Qed.

Lemma handle_token_in_range (n i : Z) (s : string)
  (st : list (list Z) * list directive) :
  length st.1 = Z.to_nat (2 * n + 2) →
  (∀ l, l ∈ literals [s] → 1 ≤ Z.abs l ≤ n) →
  match handle_token i s st with
  | Ok st' => length st'.1 = Z.to_nat (2 * n + 2)
  | Raise e => e = ValueError
  end.
Proof.
  intros Hlen Hrange. unfold handle_token.
  destruct (Py.int s) as [l|e] eqn:Hint; simpl.
  - destruct (Z.eqb_spec l 0) as [|Hl]; simpl; [done|].
    assert (1 ≤ Z.abs l ≤ n) as Hl'.
    { apply Hrange, elem_of_literals. split; [done|]. exists s.
      split; [by apply list_elem_of_singleton | done]. }
    apply dimacs2index_range in Hl'.
    rewrite append_at_nonneg by lia.
    destruct (lookup_lt_is_Some_2 st.1 (Z.to_nat (dimacs2index l))) as [b ->]; [lia|].
    simpl. destruct (link_literal_to_clause_Ok l i Hl) as (bd & f & ->). simpl.
    by rewrite length_insert.
  - unfold Py.int in Hint. repeat case_match; congruence.
Qed.

Lemma handle_clause_no_assert (clause : string) (i : Z)
  (st : list (list Z) * list directive) :
  handle_clause clause i st ≠ Raise AssertionError.
Proof.
  unfold handle_clause. intros Heq.
  assert (match for_each (Py.split clause) (handle_token i) st with
          | Ok _ => True
          | Raise e => e ≠ AssertionError
          end) as Hinv.
  { apply (for_each_inv (fun _ => True) (fun e => e ≠ AssertionError)); [|done].
    intros s st' _ _. pose proof (handle_token_no_assert i s st').
    destruct (handle_token i s st'); [done | congruence]. }
  by rewrite Heq in Hinv.
Qed.

Lemma handle_clause_in_range (n i : Z) (clause : string)
  (st : list (list Z) * list directive) :
  length st.1 = Z.to_nat (2 * n + 2) →
  (∀ l, l ∈ clause_literals clause → 1 ≤ Z.abs l ≤ n) →
  match handle_clause clause i st with
  | Ok st' => length st'.1 = Z.to_nat (2 * n + 2)
  | Raise e => e = ValueError
  end.
Proof.
  intros Hlen Hrange. unfold handle_clause.
  apply (for_each_inv (fun st => length st.1 = Z.to_nat (2 * n + 2))
           (fun e => e = ValueError)); [|done].
  intros s st' Hs Hlen'. apply handle_token_in_range; [done|].
  intros l (Hl & t & ->%list_elem_of_singleton & Hint)%elem_of_literals.
  apply Hrange, elem_of_literals. eauto.
Qed.

Lemma read_clauses_in_range (n : Z) (dimacs : list string) :
  (∀ clause l, clause ∈ dimacs → l ∈ clause_literals clause → 1 ≤ Z.abs l ≤ n) →
  ∀ i st,
    length st.1 = Z.to_nat (2 * n + 2) →
    match read_clauses dimacs i st with
    | Ok st' => length st'.1 = Z.to_nat (2 * n + 2)
    | Raise e => e = ValueError
    end.
Proof.
  induction dimacs as [|line rest IH]; intros Hrange i st Hlen; simpl; [done|].
  pose proof (handle_clause_in_range n i line st Hlen) as Hline.
  destruct (handle_clause line i st) as [st'|e]; simpl.
  - apply IH.
    + intros clause l Hc. apply Hrange. by right.
    + apply Hline. intros l. apply Hrange. by left.
  - apply Hline. intros l. apply Hrange. by left.
Qed.

Lemma handle_solution_token_no_assert (adj : list (list Z)) (i : Z) (s : string)
  (st : gset Z * list directive) :
  handle_solution_token adj i s st ≠ Raise AssertionError.
Proof.
  unfold handle_solution_token. destruct (Py.int s) as [l|e] eqn:Hint; simpl.
  - destruct (Z.eqb_spec l 0) as [|Hl]; simpl; [done|].
    destruct (Py.getitem adj (dimacs2index l)) as [b|e] eqn:Hget; simpl.
    + destruct (Z.gtb_spec l 0); [done|]. destruct (Z.ltb_spec l 0); [done | lia].
    + unfold Py.getitem in Hget.
      destruct (Py.index adj (dimacs2index l)) as [j|e'] eqn:Hj; simpl in Hget.
      * destruct (adj !! j); congruence.
      * unfold Py.index in Hj. repeat case_match; congruence.
  - unfold Py.int in Hint. repeat case_match; congruence.
Qed.

Lemma handle_solution_token_in_range (n : Z) (adj : list (list Z)) (i : Z)
  (s : string) (st : gset Z * list directive) :
  length adj = Z.to_nat (2 * n + 2) →
  (∀ l, l ∈ literals [s] → 1 ≤ Z.abs l ≤ n) →
  match handle_solution_token adj i s st with
  | Ok _ => True
  | Raise e => e = ValueError
  end.
Proof.
  intros Hlen Hrange. unfold handle_solution_token.
  destruct (Py.int s) as [l|e] eqn:Hint; simpl.
  - destruct (Z.eqb_spec l 0) as [|Hl]; simpl; [done|].
    assert (1 ≤ Z.abs l ≤ n) as Hl'.
    { apply Hrange, elem_of_literals. split; [done|]. exists s.
      split; [by apply list_elem_of_singleton | done]. }
    apply dimacs2index_range in Hl'.
    rewrite getitem_nonneg by lia.
    destruct (lookup_lt_is_Some_2 adj (Z.to_nat (dimacs2index l))) as [b ->]; [lia|].
    simpl. destruct (Z.gtb_spec l 0); [done|]. destruct (Z.ltb_spec l 0); [done | lia].
  - unfold Py.int in Hint. repeat case_match; congruence.
Qed.

Lemma handle_solution_line_no_assert (m : Z) (adj : list (list Z)) (line : string)
  (i : Z) : handle_solution_line m adj line i ≠ Raise AssertionError.
Proof.
  unfold handle_solution_line.
  assert (match solution_loop adj line i with
          | Ok _ => True
          | Raise e => e ≠ AssertionError
          end) as Hinv.
  { apply (for_each_inv (fun _ => True) (fun e => e ≠ AssertionError)); [|done].
    intros s st' _ _. pose proof (handle_solution_token_no_assert adj i s st').
    destruct (handle_solution_token adj i s st'); [done | congruence]. }
  destruct (solution_loop adj line i) as [st|e]; simpl; [done | congruence].
Qed.

Lemma handle_solution_line_in_range (n m : Z) (adj : list (list Z)) (line : string)
  (i : Z) :
  length adj = Z.to_nat (2 * n + 2) →
  (∀ l, l ∈ asserted_literals line → 1 ≤ Z.abs l ≤ n) →
  match handle_solution_line m adj line i with
  | Ok _ => True
  | Raise e => e = ValueError
  end.
Proof.
  intros Hlen Hrange. unfold handle_solution_line.
  assert (match solution_loop adj line i with
          | Ok _ => True
          | Raise e => e = ValueError
          end) as Hinv.
  { apply (for_each_inv (fun _ => True) (fun e => e = ValueError)); [|done].
    intros s st' Hs _. apply (handle_solution_token_in_range n); [done|].
    intros l (Hl & t & ->%list_elem_of_singleton & Hint)%elem_of_literals.
    apply Hrange, elem_of_literals. eauto. }
  by destruct (solution_loop adj line i) as [st|e].
Qed.

(** C10: with every nonzero literal of the clause lines and of the solution
    lines between [-n] and [n], each index [dimacs2index l] lies in
    [2 .. 2n+1], below the length [2n+2] of the adjacency, so no lookup
    raises [IndexError] (a run can then stop only on a token that is not an
    integer); and the assertions [l < 0] never fail, whatever the input. *)
Theorem in_range_literals_safe (n : Z) :
  (∀ l, 1 ≤ Z.abs l ≤ n → 2 ≤ dimacs2index l ≤ 2 * n + 1)
  ∧ length (empty_adjacency n) = Z.to_nat (2 * n + 2)
  ∧ (∀ (adj : list (list Z)) l i,
       length adj = length (empty_adjacency n) → 1 ≤ Z.abs l ≤ n →
       (∃ b, Py.getitem adj (dimacs2index l) = Ok b)
       ∧ (∃ adj', append_at adj (dimacs2index l) i = Ok adj'))
  ∧ (∀ dimacs out0,
       (∀ clause l, clause ∈ dimacs → l ∈ clause_literals clause →
                    1 ≤ Z.abs l ≤ n) →
       match read_clauses dimacs 1 (empty_adjacency n, out0) with
       | Ok st =>
           length st.1 = length (empty_adjacency n)
           ∧ ∀ m line i,
               (∀ l, l ∈ asserted_literals line → 1 ≤ Z.abs l ≤ n) →
               match handle_solution_line m st.1 line i with
               | Ok _ => True
               | Raise e => e = ValueError
               end
       | Raise e => e = ValueError
       end)
  ∧ (∀ l i e, link_literal_to_clause l i = Raise e → l = 0)
  ∧ (∀ clause i st, handle_clause clause i st ≠ Raise AssertionError)
  ∧ (∀ m adj line i, handle_solution_line m adj line i ≠ Raise AssertionError).
Proof.
  split; [apply dimacs2index_range|].
  split; [apply length_empty_adjacency|].
  split; [|split; [|split; [|split]]].
  - intros adj l i Hlen Hl. rewrite length_empty_adjacency in Hlen.
    apply dimacs2index_range in Hl.
    rewrite getitem_nonneg, append_at_nonneg by lia.
    destruct (lookup_lt_is_Some_2 adj (Z.to_nat (dimacs2index l))) as [b ->]; [lia|].
    eauto.
  - intros dimacs out0 Hrange.
    pose proof (read_clauses_in_range n dimacs Hrange 1 (empty_adjacency n, out0)
                  (length_empty_adjacency n)) as Hrun.
    destruct (read_clauses dimacs 1 (empty_adjacency n, out0)) as [st|e]; [|done].
    rewrite length_empty_adjacency. split; [done|].
    intros m line i Hline. by apply (handle_solution_line_in_range n).
  - apply link_literal_to_clause_Raise.
  - apply handle_clause_no_assert.
  - apply handle_solution_line_no_assert.
Qed.

(** ** Clause numbers and the declared count *)

Lemma slot_in_range (n : Z) (dimacs : list string) (out0 out : list directive)
  (adj : list (list Z)) (j : nat) (c : Z) :
  read_clauses dimacs 1 (empty_adjacency n, out0) = Ok (adj, out) →
  c ∈ slot adj j → 1 ≤ c ≤ Z.of_nat (length dimacs).
Proof.
  intros Hrun Hc. apply read_clauses_Ok in Hrun as (_ & Hslot & _).
  apply Hslot in Hc as [Hc|(k & clause & l & Hk & -> & _)].
  - rewrite slot_empty_adjacency in Hc. by apply elem_of_nil in Hc.
  - apply lookup_lt_Some in Hk. lia.
Qed.

(** The clause loop runs over every remaining line of the file and numbers
    them 1, 2, 3, ...; it never looks at the declared count.  With one
    clause declared and two present, the number 2 is stored, a wire is
    drawn from light 2, and slide 2 switches light 2 on. *)
Lemma clause_index_beyond_count :
  parse_header (skip_comments long_dimacs).1 = Ok (1, 1)
  ∧ read_clauses (skip_comments long_dimacs).2 1 (empty_adjacency 1, [])
    = Ok ([[]; []; [1; 2]; []],
          [Wire 1 bend_left 1 east; Wire 2 bend_left 1 east])
  ∧ (∃ out, main long_dimacs long_stdin = Ok out
            ∧ Wire 2 bend_left 1 east ∈ out
            ∧ LightState 2 2 true ∈ out)
  ∧ ¬ (1 ≤ 2 ≤ 1).
Proof.
  split; [vm_compute; reflexivity|].
  split; [vm_compute; reflexivity|].
  split; [|lia].
  eexists. split; [vm_compute; reflexivity|].
  split; apply list_elem_of_In; vm_compute; tauto.
Qed.

(** C6, amended: when the file holds at most [m] lines after its problem
    line, [m] being the count declared there, every number stored in the
    adjacency lies in [1..m], and so does the clause number of every wire
    and of every light line of a slide. *)
Theorem clause_indices_in_range (dimacs : list string) (n m : Z)
  (out0 out : list directive) (adj : list (list Z)) :
  parse_header (skip_comments dimacs).1 = Ok (n, m) →
  Z.of_nat (length (skip_comments dimacs).2) ≤ m →
  read_clauses (skip_comments dimacs).2 1 (empty_adjacency n, out0) = Ok (adj, out) →
  (∀ b c, b ∈ adj → c ∈ b → 1 ≤ c ≤ m)
  ∧ (∃ ws, out = out0 ++ ws ∧ ∀ w, w ∈ ws → ∃ c b v f, w = Wire c b v f ∧ 1 ≤ c ≤ m)
  ∧ (∀ line i ds c s on,
       handle_solution_line m adj line i = Ok ds →
       LightState c s on ∈ ds → 1 ≤ c ≤ m).
Proof.
  intros _ Hcount Hrun.
  assert (∀ j c, c ∈ slot adj j → 1 ≤ c ≤ m) as Hslot.
  { intros j c Hc. pose proof (slot_in_range _ _ _ _ _ _ _ Hrun Hc). lia. }
  split; [|split].
  - intros b c [j Hj]%list_elem_of_lookup_1 Hc. apply (Hslot j).
    unfold slot. by rewrite Hj.
  - apply read_clauses_Ok in Hrun as (_ & _ & ws & -> & Hws).
    exists ws. split; [done|]. intros w Hw.
    apply Hws in Hw as (k & clause & l & Hk & Hl & Hlink).
    destruct (link_literal_to_clause_Ok l (1 + Z.of_nat k)) as (b & f & Heq);
      [by eapply literals_nonzero|].
    rewrite Heq in Hlink. injection Hlink as <-.
    exists (1 + Z.of_nat k), b, (Z.abs l), f. split; [done|].
    apply lookup_lt_Some in Hk. lia.
  - intros line i ds c s on Hline Hin.
    apply (elem_of_solution_lights _ _ _ _ _ _ _ _ Hline) in Hin as [_ Hin].
    destruct on; [|by destruct Hin].
    apply elem_of_reachable in Hin as (l & _ & Hc). by apply Hslot in Hc.
Qed.

Lemma clause_indices_in_range_witness :
  (∀ b c, b ∈ example_adjacency → c ∈ b → 1 ≤ c ≤ 2)
  ∧ (∃ ws, example_wires = [] ++ ws
           ∧ ∀ w, w ∈ ws → ∃ c b v f, w = Wire c b v f ∧ 1 ≤ c ≤ 2)
  ∧ (∀ line i ds c s on,
       handle_solution_line 2 example_adjacency line i = Ok ds →
       LightState c s on ∈ ds → 1 ≤ c ≤ 2).
Proof.
  apply (clause_indices_in_range example_dimacs 2 2 [] example_wires example_adjacency).
  - vm_compute. reflexivity.
  - vm_compute. discriminate.
  - vm_compute. reflexivity.
Defined.

(** ** The whole run *)

Lemma read_clauses_wires (dimacs : list string) (i : Z) (adj adj' : list (list Z))
  (out out' : list directive) :
  read_clauses dimacs i (adj, out) = Ok (adj', out') →
  ∃ ws, out' = out ++ ws ∧ Forall (fun w => is_wire w = true) ws.
Proof.
  intros Hrun. apply read_clauses_Ok in Hrun as (_ & _ & ws & -> & Hws).
  exists ws. split; [done|]. apply Forall_forall. intros w Hw.
  apply Hws in Hw as (k & clause & l & _ & Hl & Hlink).
  destruct (link_literal_to_clause_Ok l (i + Z.of_nat k)) as (b & f & Heq);
    [by eapply literals_nonzero|].
  rewrite Heq in Hlink. by injection Hlink as <-.
Qed.

(** The output of [main], piece by piece. *)
Lemma main_Ok (dimacs stdin : list string) (out : list directive) :
  main dimacs stdin = Ok out →
  ∃ n m scale adj ws sol,
    parse_header (skip_comments dimacs).1 = Ok (n, m)
    ∧ scale_of n m = Ok scale
    ∧ read_clauses (skip_comments dimacs).2 1
        (empty_adjacency n,
         latex_header scale ++ declare_variables n ++ declare_clauses m)
      = Ok (adj, (latex_header scale ++ declare_variables n ++ declare_clauses m)
                 ++ ws)
    ∧ Forall (fun w => is_wire w = true) ws
    ∧ wait_for_solution m adj stdin = Ok sol
    ∧ out = (latex_header scale ++ declare_variables n ++ declare_clauses m)
            ++ ws ++ sol ++ latex_footer.
Proof.
  unfold main. destruct (skip_comments dimacs) as [line rest]. cbn [fst snd].
  intros H. inv_bind H. destruct a as [n m]. cbv beta iota in H.
  inv_bind H. rename a into scale.
  inv_bind H. destruct a as [adj out1]. cbn [fst snd] in H.
  inv_bind H. rename a into sol. injection H as <-.
  destruct (read_clauses_wires _ _ _ _ _ _ Ha1) as (ws & -> & Hws).
  exists n, m, scale, adj, ws, sol. repeat (split; [done|]).
  symmetry. apply app_assoc.
Qed.

Lemma static_lines_not_state (n m : Z) (scale : float) :
  Forall (fun d => is_state d = false)
    (latex_header scale ++ declare_variables n ++ declare_clauses m)
  ∧ Forall (fun d => is_state d = false) latex_footer.
Proof.
  split; [|by repeat constructor].
  apply Forall_app. split; [by repeat constructor|].
  apply Forall_app. split.
  - unfold declare_variables. apply Forall_app. split; [by repeat constructor|].
    apply Forall_concat, Forall_fmap, Forall_forall. intros i _.
    by repeat constructor.
  - unfold declare_clauses. apply Forall_app. split; [by repeat constructor|].
    apply Forall_fmap, Forall_forall. by intros i _.
Qed.

(** ** Slide numbers *)

Lemma numbered_from_fst (lines : list string) (i : Z) :
  (numbered_from i lines).*1 = seqZ i (Z.of_nat (length lines)).
Proof.
  revert i. induction lines as [|line rest IH]; intros i; [done|].
  simpl length. rewrite Nat2Z.inj_succ, seqZ_cons by lia.
  simpl. rewrite IH. do 2 f_equal; lia.
Qed.

Lemma numbered_from_snd (lines : list string) (i : Z) :
  (numbered_from i lines).*2 = lines.
Proof.
  revert i. induction lines as [|line rest IH]; intros i; [done|].
  simpl. by rewrite IH.
Qed.

Lemma wait_loop_filter (m : Z) (adj : list (list Z)) (stdin : list string) :
  ∀ i out,
    wait_loop m adj stdin i out
    = wait_loop m adj (filter is_solution_line stdin) i out.
Proof.
  induction stdin as [|line rest IH]; intros i out; [done|].
  rewrite filter_cons. simpl.
  destruct (decide (is_solution_line line)) as [Hv|Hv]; unfold is_solution_line in Hv.
  - simpl. rewrite Hv.
    destruct (handle_solution_line m adj line i); simpl; [apply IH | done].
  - destruct (String.prefix "v " line); [done | apply IH].
Qed.

Lemma wait_loop_slides (m : Z) (adj : list (list Z)) (lines : list string) :
  Forall is_solution_line lines →
  ∀ i out res,
    wait_loop m adj lines i out = Ok res ↔
    ∃ dss, Forall2 (fun slide ds =>
                      handle_solution_line m adj slide.2 slide.1 = Ok ds)
             (numbered_from i lines) dss
           ∧ res = out ++ concat dss.
Proof.
  induction 1 as [|line rest Hv _ IH]; intros i out res; simpl.
  - split.
    + intros [= <-]. exists []. split; [constructor | by rewrite app_nil_r].
    + intros (dss & ->%Forall2_nil_inv_l & ->). by rewrite app_nil_r.
  - unfold is_solution_line in Hv. rewrite Hv. split.
    + intros Hrun. inv_bind Hrun. rename a into ds.
      apply IH in Hrun as (dss & Hdss & ->).
      exists (ds :: dss). split; [by constructor|]. simpl. by rewrite app_assoc.
    + intros (dss & Hdss & ->).
      apply Forall2_cons_inv_l in Hdss as (ds & dss' & Hds & Hdss' & ->).
      simpl in Hds. rewrite Hds. simpl. apply IH.
      exists dss'. split; [done|]. simpl. by rewrite app_assoc.
Qed.

(** C7: the solution lines, those that start with ["v "], get the slide
    numbers 2, 3, 4, ... in the order of the input, one each; the other
    lines change nothing, raise nothing and use no number; an empty input
    prints nothing, and [main] then prints no switch or light state. *)
Theorem slides_numbered_in_order (m : Z) (adj : list (list Z)) (stdin : list string) :
  (solution_slides stdin).*2 = filter is_solution_line stdin
  ∧ (solution_slides stdin).*1
    = seqZ 2 (Z.of_nat (length (filter is_solution_line stdin)))
  ∧ (∀ out,
       wait_for_solution m adj stdin = Ok out ↔
       ∃ dss, Forall2 (fun slide ds =>
                         handle_solution_line m adj slide.2 slide.1 = Ok ds)
                (solution_slides stdin) dss
              ∧ out = concat dss)
  ∧ wait_for_solution m adj stdin
    = wait_for_solution m adj (filter is_solution_line stdin)
  ∧ wait_for_solution m adj [] = Ok []
  ∧ (∀ dimacs out d,
       main dimacs [] = Ok out → d ∈ out → is_state d = false).
Proof.
  split; [apply numbered_from_snd|]. split; [apply numbered_from_fst|].
  split; [|split; [|split]].
  - intros out. unfold wait_for_solution, solution_slides.
    rewrite wait_loop_filter. apply wait_loop_slides.
    apply Forall_forall. by intros line [? _]%list_elem_of_filter.
  - apply wait_loop_filter.
  - done.
  - intros dimacs out d Hmain Hd.
    apply main_Ok in Hmain as (n & k & scale & adj' & ws & sol & _ & _ & _ & Hws & Hsol & ->).
    injection Hsol as <-.
    destruct (static_lines_not_state n k scale) as [Hhead Hfoot].
    rewrite Forall_forall in Hhead, Hfoot, Hws.
    apply elem_of_app in Hd as [Hd|Hd]; [by apply Hhead|].
    apply elem_of_app in Hd as [Hd|Hd]; [|by apply Hfoot].
    apply Hws in Hd. by destruct d.
Qed.

(** ** The scale factor *)

(** C9: the scale is 1.0 when [n <= 5] and [m <= 5], and otherwise the
    double 5.0 divided by [max n m] converted to a double (the divisor is
    then at least 6, so the division is defined); 3 variables and 3 clauses
    give 1.0, 10 variables and 4 clauses give 0.5; this scale is the one
    [main] prints in its scalebox line. *)
Theorem scale_of_spec (n m : Z) :
  (n ≤ 5 ∧ m ≤ 5 → scale_of n m = Ok 1%float)
  ∧ (¬ (n ≤ 5 ∧ m ≤ 5) →
       scale_of n m = (d ← Py.float_of_int (Z.max n m); Ok (5 / d)%float))
  ∧ scale_of 3 3 = Ok 1%float
  ∧ scale_of 10 4 = Ok 0.5%float
  ∧ (∀ dimacs stdin out,
       parse_header (skip_comments dimacs).1 = Ok (n, m) →
       main dimacs stdin = Ok out →
       ∃ scale, scale_of n m = Ok scale ∧ out !! 5%nat = Some (Scalebox scale)).
Proof.
  split; [|split; [|split; [|split]]].
  - intros [Hn Hm]. unfold scale_of.
    destruct (Z.leb_spec n 5), (Z.leb_spec m 5); try lia. done.
  - intros Hbig. unfold scale_of, Py.truediv.
    destruct (Z.leb_spec n 5), (Z.leb_spec m 5); simpl; try lia;
      (destruct (Py.float_of_int (Z.max n m)); simpl; [|done]);
      destruct (Z.eqb_spec (Z.max n m) 0); (done || lia).
  - vm_compute. reflexivity.
  - vm_compute. reflexivity.
  - intros dimacs stdin out Hhead Hmain.
    apply main_Ok in Hmain
      as (n' & m' & scale & adj & ws & sol & Hhead' & Hscale & _ & _ & _ & ->).
    rewrite Hhead in Hhead'. injection Hhead' as <- <-.
    exists scale. split; [done | reflexivity].
Qed.

(** ** The overlay of a slide *)

Lemma string_app_assoc (s1 s2 s3 : string) :
  (s1 +:+ s2) +:+ s3 = s1 +:+ (s2 +:+ s3).
Proof.
  induction s1 as [|a s1 IH]; [done|].
  change (String a ((s1 +:+ s2) +:+ s3) = String a (s1 +:+ (s2 +:+ s3))).
  by f_equal.
Qed.

Lemma state_directive_overlay (d : directive) (i : Z) :
  (∃ v on, d = SwitchState v i on) ∨ (∃ c on, d = LightState c i on) →
  is_state d = true
  ∧ overlay_of d = slide_only i
  ∧ (∀ j, visible_on d j = true ↔ j = i)
  ∧ ∃ pre post, render d = pre +:+ "\only<" +:+ Py.fmt_d i +:+ ">" +:+ post.
Proof.
  intros [(v & on & ->)|(c & on & ->)]; (split; [done|]); (split; [done|]);
    (split; [intros j; unfold visible_on; simpl; apply Z.eqb_eq|]).
  - exists ("        \node () at (v" +:+ Py.fmt_d v +:+ ") {"),
      ("{\pgfimage[width = 1cm]{figures/"
       +:+ (if on then "switchon" else "switchoff") +:+ "}}} ;").
    rewrite !string_app_assoc. reflexivity.
  - exists ("        \node () at (c" +:+ Py.fmt_d c +:+ ") {"),
      ("{\pgfimage[width = 1cm]{figures/"
       +:+ (if on then "lighton" else "lightoff") +:+ "}}} ;").
    rewrite !string_app_assoc. reflexivity.
Qed.

(** The lines of slide 2 for the solver line [v 1 2 0] carry [\only<2>]:
    they are on slide 2 and on no later slide. *)
Lemma slide_directive_not_persistent :
  handle_solution_line 2 example_adjacency example_line 2 = Ok example_slide
  ∧ render (SwitchState 1 2 true)
    = "        \node () at (v1) {\only<2>{\pgfimage[width = 1cm]{figures/switchon}}} ;"
  ∧ render (LightState 2 2 false)
    = "        \node () at (c2) {\only<2>{\pgfimage[width = 1cm]{figures/lightoff}}} ;"
  ∧ ¬ (∀ d j, d ∈ example_slide → is_state d = true → 2 ≤ j →
              visible_on d j = true).
Proof.
  split; [vm_compute; reflexivity|].
  split; [vm_compute; reflexivity|].
  split; [vm_compute; reflexivity|].
  intros Hall. specialize (Hall (SwitchState 1 2 true) 3).
  assert (visible_on (SwitchState 1 2 true) 3 = true) as Hvis; [|done].
  apply Hall; [|done|lia].
  apply list_elem_of_In. vm_compute. tauto.
Qed.

(** C5, amended: every switch-state and light-state line printed for slide
    [i] is wrapped in [\only<i>], which beamer shows on slide [i] and on no
    other slide; the one remaining line of the slide is its comment. *)
Theorem slide_directives_only_on_their_slide (m : Z) (adj : list (list Z))
  (line : string) (i : Z) (ds : list directive) (d : directive) :
  handle_solution_line m adj line i = Ok ds →
  d ∈ ds →
  (d = Text (newline +:+ "        % solution") ∨ is_state d = true)
  ∧ (is_state d = true →
       overlay_of d = slide_only i
       ∧ (∀ j, visible_on d j = true ↔ j = i)
       ∧ ∃ pre post, render d = pre +:+ "\only<" +:+ Py.fmt_d i +:+ ">" +:+ post).
Proof.
  intros Hrun Hd. apply handle_solution_line_Ok in Hrun as (_ & _ & ->).
  rewrite !elem_of_app, !list_elem_of_fmap, list_elem_of_singleton in Hd.
  destruct Hd as [->|Hd]; [split; [by left | done]|].
  assert ((∃ v on, d = SwitchState v i on) ∨ (∃ c on, d = LightState c i on)) as Hst.
  { destruct Hd as [(l & -> & _)|[(c & -> & _)|(c & -> & _)]]; eauto. }
  apply state_directive_overlay in Hst as (Hstate & Hrest).
  split; [by right | done].
Qed.

Lemma slide_directives_only_on_their_slide_witness :
  (LightState 2 2 false = Text (newline +:+ "        % solution")
   ∨ is_state (LightState 2 2 false) = true)
  ∧ (is_state (LightState 2 2 false) = true →
       overlay_of (LightState 2 2 false) = slide_only 2
       ∧ (∀ j, visible_on (LightState 2 2 false) j = true ↔ j = 2)
       ∧ ∃ pre post,
           render (LightState 2 2 false)
           = pre +:+ "\only<" +:+ Py.fmt_d 2 +:+ ">" +:+ post).
Proof.
  apply (slide_directives_only_on_their_slide 2 example_adjacency example_line 2
           example_slide (LightState 2 2 false)).
  - vm_compute. reflexivity.
  - apply list_elem_of_In. vm_compute. tauto.
Defined.

(** ** Repeated literals *)

Lemma elem_of_const_fmap (i c : Z) (ls : list Z) :
  c ∈ (fun _ => i) <$> ls ↔ c = i ∧ ∃ l, l ∈ ls.
Proof.
  rewrite list_elem_of_fmap. split.
  - intros (l & -> & Hl). eauto.
  - intros (-> & l & Hl). eauto.
Qed.

Lemma fmap_slots_eq {B : Type} (f : list Z → B) (adj1 adj2 : list (list Z)) :
  length adj1 = length adj2 →
  (∀ j, f (slot adj1 j) = f (slot adj2 j)) →
  f <$> adj1 = f <$> adj2.
Proof.
  intros Hlen Hslot. apply list_eq. intros j. rewrite !list_lookup_fmap.
  specialize (Hslot j). unfold slot in Hslot.
  destruct (adj1 !! j) as [b1|] eqn:H1, (adj2 !! j) as [b2|] eqn:H2; simpl in *.
  - by rewrite Hslot.
  - apply lookup_lt_Some in H1. apply lookup_ge_None in H2. lia.
  - apply lookup_ge_None in H1. apply lookup_lt_Some in H2. lia.
  - done.
Qed.

Lemma repeated_same_elements (a b : list Z) (l x : Z) :
  l ∈ a ++ b → x ∈ a ++ l :: b ↔ x ∈ a ++ b.
Proof.
  intros Hl. rewrite !elem_of_app, elem_of_cons. split.
  - intros [?|[->|?]]; [by left | by apply elem_of_app in Hl | by right].
  - intros [?|?]; [by left | by right; right].
Qed.

(** The clause [1 1 0] leaves two entries in the bucket of literal 1 and
    draws two wires, where the clause [1 0] leaves one entry and one wire. *)
Lemma repeated_literal_changes_adjacency :
  clause_literals "1 0" = [1]
  ∧ clause_literals "1 1 0" = [1; 1]
  ∧ handle_clause "1 0" 1 (empty_adjacency 1, [])
    = Ok ([[]; []; [1]; []], [Wire 1 bend_left 1 east])
  ∧ handle_clause "1 1 0" 1 (empty_adjacency 1, [])
    = Ok ([[]; []; [1; 1]; []],
          [Wire 1 bend_left 1 east; Wire 1 bend_left 1 east])
  ∧ [[]; []; [1]; []] ≠ [[]; []; [1; 1]; []].
Proof.
  split; [vm_compute; reflexivity|].
  split; [vm_compute; reflexivity|].
  split; [vm_compute; reflexivity|].
  split; [vm_compute; reflexivity | discriminate].
Qed.

(** C4, amended: a further occurrence of a literal already on a clause line
    leaves every bucket with the same set of clause numbers; the bucket of
    that literal, a list, gets one more entry, and one more wire is drawn.
    A further occurrence of a literal already on a solution line leaves the
    set of satisfied clauses the same. *)
Theorem repeated_literal_same_members (a b : list Z) (l : Z) :
  l ∈ a ++ b →
  (∀ c1 c2 i st adj1 out1 adj2 out2,
     clause_literals c1 = a ++ b → clause_literals c2 = a ++ l :: b →
     handle_clause c1 i st = Ok (adj1, out1) →
     handle_clause c2 i st = Ok (adj2, out2) →
     (list_to_set <$> adj1 : list (gset Z)) = list_to_set <$> adj2
     ∧ length (bucket adj2 l) = S (length (bucket adj1 l))
     ∧ length out2 = S (length out1))
  ∧ (∀ adj s1 s2 i sat1 out1 sat2 out2,
       asserted_literals s1 = a ++ b → asserted_literals s2 = a ++ l :: b →
       solution_loop adj s1 i = Ok (sat1, out1) →
       solution_loop adj s2 i = Ok (sat2, out2) →
       sat1 = sat2).
Proof.
  intros Hl. split.
  - intros c1 c2 i [adj0 out0] adj1 out1 adj2 out2 Hc1 Hc2 Hrun1 Hrun2.
    unfold handle_clause in Hrun1, Hrun2. unfold clause_literals in Hc1, Hc2.
    apply handle_tokens_Ok in Hrun1 as (Hlen1 & Hslot1 & ws1 & -> & Hws1).
    apply handle_tokens_Ok in Hrun2 as (Hlen2 & Hslot2 & ws2 & -> & Hws2).
    rewrite Hc1 in Hslot1, Hws1. rewrite Hc2 in Hslot2, Hws2.
    split; [|split].
    + apply fmap_slots_eq; [congruence|]. intros j. apply set_eq. intros c.
      rewrite !elem_of_list_to_set, Hslot1, Hslot2, !elem_of_app,
        !elem_of_const_fmap.
      assert ((∃ x, x ∈ stored_in j (a ++ l :: b))
              ↔ (∃ x, x ∈ stored_in j (a ++ b))) as Hsame; [|by rewrite Hsame].
      split; intros (x & Hx); exists x; apply elem_of_stored_in in Hx as [Hj Hx];
        apply elem_of_stored_in; (split; [done|]);
        by apply (repeated_same_elements a b l x Hl).
    + unfold bucket. rewrite Hslot1, Hslot2. unfold stored_in.
      rewrite !filter_app, filter_cons, decide_True by done.
      rewrite !length_app, !length_fmap, !length_app. simpl. lia.
    + apply Forall2_length in Hws1, Hws2.
      rewrite !length_app, <- Hws1, <- Hws2, !length_app. simpl. lia.
  - intros adj s1 s2 i sat1 out1 sat2 out2 Hs1 Hs2 Hrun1 Hrun2.
    unfold solution_loop in Hrun1, Hrun2. unfold asserted_literals in Hs1, Hs2.
    apply solution_tokens_Ok in Hrun1 as (-> & _ & _).
    apply solution_tokens_Ok in Hrun2 as (-> & _ & _).
    rewrite Hs1, Hs2. f_equal. apply set_eq. intros c.
    rewrite !elem_of_reachable.
    split; intros (x & Hx & Hc); exists x; (split; [|done]);
      by apply (repeated_same_elements a b l x Hl).
Qed.

Lemma repeated_literal_same_members_witness :
  ((list_to_set <$> [[]; []; [1]; []] : list (gset Z))
   = list_to_set <$> [[]; []; [1; 1]; []]
   ∧ length (bucket [[]; []; [1; 1]; []] 1) = S (length (bucket [[]; []; [1]; []] 1))
   ∧ length [Wire 1 bend_left 1 east; Wire 1 bend_left 1 east]
     = S (length [Wire 1 bend_left 1 east]))
  ∧ reachable example_adjacency [1] = reachable example_adjacency [1; 1].
Proof.
  assert (1 ∈ [1] ++ []) as Hin by (apply list_elem_of_In; vm_compute; tauto).
  split.
  - apply (proj1 (repeated_literal_same_members [1] [] 1 Hin)
             "1 0" "1 1 0" 1 (empty_adjacency 1, []));
      vm_compute; reflexivity.
  - apply (proj2 (repeated_literal_same_members [1] [] 1 Hin)
             example_adjacency "v 1 0" "v 1 1 0" 2
             (reachable example_adjacency [1])
             [Text (newline +:+ "        % solution"); SwitchState 1 2 true]
             (reachable example_adjacency [1; 1])
             [Text (newline +:+ "        % solution"); SwitchState 1 2 true;
              SwitchState 1 2 true]);
      vm_compute; reflexivity.
Defined.

(** * Further properties *)

(** ** Slots of the adjacency *)

(** X1: [dimacs2index] can be undone on every integer: half the index is
    the variable and its parity the sign; so it is injective on all
    integers, it is 0 only at 0, and it is never 1. *)
Theorem dimacs2index_decode (l : Z) :
  dimacs2index l / 2 = Z.abs l
  ∧ l = (if Z.even (dimacs2index l) then 1 else -1) * (dimacs2index l / 2)
  ∧ dimacs2index l ≠ 1
  ∧ (dimacs2index l = 0 ↔ l = 0)
  ∧ (∀ l', dimacs2index l = dimacs2index l' → l = l').
Proof.
  assert (∀ x, dimacs2index x / 2 = Z.abs x
               ∧ Z.even (dimacs2index x) = (0 <=? x)) as Hdec.
  { intros x. unfold dimacs2index.
    destruct (Z.eqb_spec x 0) as [->|Hx]; [done|].
    destruct (Z.gtb_spec x 0).
    - rewrite Z.div_mul, Z.even_mul by done. simpl. rewrite orb_true_r.
      split; [lia|]. symmetry. apply Z.leb_le. lia.
    - replace (- x * 2 + 1) with (1 + 2 * - x) by lia.
      rewrite Z.even_add_mul_2, (Z.mul_comm 2), Z.div_add by done.
      change (1 / 2) with 0. change (Z.even 1) with false.
      split; [lia|]. symmetry. apply Z.leb_gt. lia. }
  assert (∀ x, x = (if Z.even (dimacs2index x) then 1 else -1)
                   * (dimacs2index x / 2)) as Hinv.
  { intros x. destruct (Hdec x) as [-> ->]. destruct (Z.leb_spec 0 x); lia. }
  split; [apply Hdec|]. split; [apply Hinv|]. split; [|split].
  - pose proof (Hdec l) as [Hhalf _]. intros Hone. rewrite Hone in Hhalf.
    change (1 / 2) with 0 in Hhalf.
    assert (l = 0) as -> by lia. done.
  - split; [|by intros ->].
    intros Hzero. pose proof (Hdec l) as [Hhalf _]. rewrite Hzero in Hhalf.
    change (0 / 2) with 0 in Hhalf. lia.
  - intros l' Heq. rewrite (Hinv l), (Hinv l'), Heq. done.
Qed.

(** X2: the clause loop never writes slots 0 and 1 of the adjacency: after
    it has run from the fresh adjacency they are still empty. *)
Theorem first_slots_stay_empty (n : Z) (dimacs : list string) (i : Z)
  (out0 out : list directive) (adj : list (list Z)) :
  read_clauses dimacs i (empty_adjacency n, out0) = Ok (adj, out) →
  slot adj 0 = [] ∧ slot adj 1 = [].
Proof.
  intros Hrun. apply read_clauses_Ok in Hrun as (_ & Hslot & _).
  assert (∀ j, (j < 2)%nat → slot adj j = []) as Hempty; [|split; apply Hempty; lia].
  intros j Hj. destruct (slot adj j) as [|c b] eqn:Hb; [done|]. exfalso.
  assert (c ∈ slot adj j) as Hc by (rewrite Hb; by left).
  apply Hslot in Hc as [Hc|(k & clause & l & _ & _ & Hl & Hidx)].
  - rewrite slot_empty_adjacency in Hc. by apply elem_of_nil in Hc.
  - apply literals_nonzero in Hl.
    pose proof (dimacs2index_range (Z.abs l) l). lia.
Qed.

Lemma first_slots_stay_empty_witness :
  slot example_adjacency 0 = [] ∧ slot example_adjacency 1 = [].
Proof.
  apply (first_slots_stay_empty 2 example_clauses 1 [] example_wires).
  vm_compute. reflexivity.
Defined.

(** ** The bounds check as the only validation *)

Lemma index_in_bounds (n l : Z) :
  l ≠ 0 → (Z.to_nat (dimacs2index l) < Z.to_nat (2 * n + 2))%nat →
  1 ≤ Z.abs l ≤ n.
Proof.
  intros Hl. unfold dimacs2index.
  destruct (Z.eqb_spec l 0); [done|]. destruct (Z.gtb_spec l 0); lia.
Qed.

Lemma index_out_of_bounds (n l : Z) :
  l ≠ 0 → n < Z.abs l →
  (Z.to_nat (2 * n + 2) ≤ Z.to_nat (dimacs2index l))%nat.
Proof.
  intros Hl. unfold dimacs2index.
  destruct (Z.eqb_spec l 0); [done|]. destruct (Z.gtb_spec l 0); lia.
Qed.

Lemma handle_tokens_in_bounds (i : Z) (tokens : list string)
  (adj adj' : list (list Z)) (out out' : list directive) (l : Z) :
  for_each tokens (handle_token i) (adj, out) = Ok (adj', out') →
  l ∈ literals tokens →
  (Z.to_nat (dimacs2index l) < length adj)%nat.
Proof.
  intros Hrun Hl. apply handle_tokens_Ok in Hrun as (Hlen & Hslot & _).
  rewrite <- Hlen. specialize (Hslot (Z.to_nat (dimacs2index l))).
  unfold slot at 1 in Hslot.
  destruct (adj' !! Z.to_nat (dimacs2index l)) as [b|] eqn:Hb.
  - by eapply lookup_lt_Some.
  - simpl in Hslot. symmetry in Hslot. apply app_eq_nil in Hslot as [_ Hnone].
    apply fmap_nil_inv in Hnone.
    assert (l ∈ stored_in (Z.to_nat (dimacs2index l)) (literals tokens)) as Hin
      by (by apply elem_of_stored_in).
    rewrite Hnone in Hin. by apply elem_of_nil in Hin.
Qed.

(** X3: a run that returns has met only literals within [-n .. n]: the
    bounds check of the list is the validation.  So every wire ends at a
    switch [1..n], and every switch state of a slide is for a switch
    [1..n]. *)
Theorem returned_run_literals_in_range (n : Z) :
  (∀ dimacs i out0 adj out,
     read_clauses dimacs i (empty_adjacency n, out0) = Ok (adj, out) →
     (∀ clause l, clause ∈ dimacs → l ∈ clause_literals clause →
                  1 ≤ Z.abs l ≤ n)
     ∧ ∃ ws, out = out0 ++ ws
             ∧ ∀ c b v f, Wire c b v f ∈ ws → 1 ≤ v ≤ n)
  ∧ (∀ m adj line i ds,
       length adj = Z.to_nat (2 * n + 2) →
       handle_solution_line m adj line i = Ok ds →
       (∀ l, l ∈ asserted_literals line → 1 ≤ Z.abs l ≤ n)
       ∧ ∀ v s on, SwitchState v s on ∈ ds → 1 ≤ v ≤ n).
Proof.
  split.
  - intros dimacs i out0 adj out Hrun.
    apply read_clauses_Ok in Hrun as (Hlen & Hslot & ws & -> & Hws).
    rewrite length_empty_adjacency in Hlen.
    assert (∀ (k : nat) clause l, dimacs !! k = Some clause →
              l ∈ clause_literals clause → 1 ≤ Z.abs l ≤ n) as Hrange.
    { intros k clause l Hk Hl.
      apply index_in_bounds; [by eapply literals_nonzero|]. rewrite <- Hlen.
      assert (i + Z.of_nat k ∈ slot adj (Z.to_nat (dimacs2index l))) as Hin.
      { apply Hslot. right. by exists k, clause, l. }
      unfold slot in Hin.
      destruct (adj !! Z.to_nat (dimacs2index l)) as [b|] eqn:Hb.
      - by eapply lookup_lt_Some.
      - by apply elem_of_nil in Hin. }
    split.
    + intros clause l [k Hk]%list_elem_of_lookup_1 Hl.
      exact (Hrange k clause l Hk Hl).
    + exists ws. split; [done|]. intros c b v f Hw.
      apply Hws in Hw as (k & clause & l & Hk & Hl & Hlink).
      destruct (link_literal_to_clause_Ok l (i + Z.of_nat k)) as (b' & f' & Heq);
        [by eapply literals_nonzero|].
      rewrite Heq in Hlink. injection Hlink as _ _ <- _.
      exact (Hrange k clause l Hk Hl).
  - intros m adj line i ds Hlen Hrun.
    apply handle_solution_line_Ok in Hrun as (_ & Hget & ->).
    assert (∀ l, l ∈ asserted_literals line → 1 ≤ Z.abs l ≤ n) as Hrange.
    { intros l Hl. apply index_in_bounds; [by eapply literals_nonzero|].
      rewrite <- Hlen. specialize (Hget l Hl).
      rewrite getitem_nonneg in Hget by apply dimacs2index_nonneg.
      destruct (adj !! Z.to_nat (dimacs2index l)) as [b|] eqn:Hb; [|done].
      by eapply lookup_lt_Some. }
    split; [done|]. intros v s on Hin.
    rewrite !elem_of_app, !list_elem_of_fmap, list_elem_of_singleton in Hin.
    destruct Hin as [?|[(l & [= -> _ _] & Hl)|[(c & ? & _)|(c & ? & _)]]];
      try done.
    by apply Hrange.
Qed.

Lemma handle_token_parsed (i : Z) (s : string) (z : Z)
  (st : list (list Z) * list directive) :
  Py.int s = Ok z →
  match handle_token i s st with
  | Ok st' => length st'.1 = length st.1
  | Raise e => e = IndexError
  end.
Proof.
  intros Hint. unfold handle_token. rewrite Hint. simpl.
  destruct (Z.eqb_spec z 0) as [|Hz]; simpl; [done|].
  rewrite append_at_nonneg by apply dimacs2index_nonneg.
  destruct (st.1 !! Z.to_nat (dimacs2index z)) as [b|]; simpl; [|done].
  destruct (link_literal_to_clause_Ok z i Hz) as (bd & f & ->). simpl.
  by rewrite length_insert.
Qed.

Lemma handle_solution_token_parsed (adj : list (list Z)) (i : Z) (s : string)
  (z : Z) (st : gset Z * list directive) :
  Py.int s = Ok z →
  match handle_solution_token adj i s st with
  | Ok _ => True
  | Raise e => e = IndexError
  end.
Proof.
  intros Hint. unfold handle_solution_token. rewrite Hint. simpl.
  destruct (Z.eqb_spec z 0) as [|Hz]; simpl; [done|].
  rewrite getitem_nonneg by apply dimacs2index_nonneg.
  destruct (adj !! Z.to_nat (dimacs2index z)) as [b|]; simpl; [|done].
  destruct (Z.gtb_spec z 0); [done|]. destruct (Z.ltb_spec z 0); [done | lia].
Qed.

(** X4: with every token of the line an integer, a literal [l] with
    [|l| > n] on a clause line makes [handle_clause] raise [IndexError], and
    on a solution line makes [handle_solution_line] raise [IndexError]: the
    literal is neither drawn nor skipped. *)
Theorem out_of_range_literal_raises (n i : Z) (adj : list (list Z)) :
  length adj = Z.to_nat (2 * n + 2) →
  (∀ line out,
     (∀ s, s ∈ Py.split line → ∃ z, Py.int s = Ok z) →
     (∃ l, l ∈ clause_literals line ∧ n < Z.abs l) →
     handle_clause line i (adj, out) = Raise IndexError)
  ∧ (∀ m line,
       (∀ s, s ∈ drop 1 (Py.split line) → ∃ z, Py.int s = Ok z) →
       (∃ l, l ∈ asserted_literals line ∧ n < Z.abs l) →
       handle_solution_line m adj line i = Raise IndexError).
Proof.
  intros Hlen. split.
  - intros line out Hints (l & Hl & Hbig). unfold handle_clause.
    assert (match for_each (Py.split line) (handle_token i) (adj, out) with
            | Ok st' => length st'.1 = length adj
            | Raise e => e = IndexError
            end) as Hinv.
    { apply (for_each_inv (fun st => length st.1 = length adj)
               (fun e => e = IndexError)); [|done].
      intros s st Hs Hst. destruct (Hints s Hs) as [z Hz].
      pose proof (handle_token_parsed i s z st Hz) as Htok.
      destruct (handle_token i s st); [congruence | done]. }
    destruct (for_each (Py.split line) (handle_token i) (adj, out))
      as [[adj' out']|e] eqn:Hrun; [|by subst e].
    exfalso. pose proof (handle_tokens_in_bounds _ _ _ _ _ _ l Hrun Hl) as Hlt.
    pose proof (index_out_of_bounds n l (literals_nonzero _ _ Hl) Hbig). lia.
  - intros m line Hints (l & Hl & Hbig). unfold handle_solution_line.
    assert (match solution_loop adj line i with
            | Ok _ => True
            | Raise e => e = IndexError
            end) as Hinv.
    { apply (for_each_inv (fun _ => True) (fun e => e = IndexError)); [|done].
      intros s st Hs _. destruct (Hints s Hs) as [z Hz].
      apply (handle_solution_token_parsed adj i s z st Hz). }
    destruct (solution_loop adj line i) as [[sat out]|e] eqn:Hrun;
      [|by subst e].
    exfalso. unfold solution_loop in Hrun.
    apply solution_tokens_Ok in Hrun as (_ & _ & Hget).
    specialize (Hget l Hl).
    rewrite getitem_nonneg in Hget by apply dimacs2index_nonneg.
    destruct (adj !! Z.to_nat (dimacs2index l)) as [b|] eqn:Hb; [|done].
    apply lookup_lt_Some in Hb.
    pose proof (index_out_of_bounds n l (literals_nonzero _ _ Hl) Hbig). lia.
Qed.

Lemma out_of_range_literal_raises_witness :
  handle_clause "1 -3 0" 1 (example_adjacency, []) = Raise IndexError
  ∧ handle_solution_line 2 example_adjacency "v 3 0" 2 = Raise IndexError.
Proof.
  assert (length example_adjacency = Z.to_nat (2 * 2 + 2)) as Hlen
    by (vm_compute; reflexivity).
  split.
  - apply (proj1 (out_of_range_literal_raises 2 1 example_adjacency Hlen)).
    + intros s Hs. apply list_elem_of_In in Hs. vm_compute in Hs.
      destruct Hs as [<-|[<-|[<-|[]]]]; eexists; vm_compute; reflexivity.
    + exists (-3). split; [apply list_elem_of_In; vm_compute; tauto | lia].
  - apply (proj2 (out_of_range_literal_raises 2 2 example_adjacency Hlen)).
    + intros s Hs. apply list_elem_of_In in Hs. vm_compute in Hs.
      destruct Hs as [<-|[<-|[]]]; eexists; vm_compute; reflexivity.
    + exists 3. split; [apply list_elem_of_In; vm_compute; tauto | lia].
Defined.

(** ** Reading order *)

Lemma filter_ext_elem {A : Type} (P Q : A → Prop) `{!∀ x, Decision (P x)}
  `{!∀ x, Decision (Q x)} (xs : list A) :
  (∀ x, x ∈ xs → P x ↔ Q x) → filter P xs = filter Q xs.
Proof.
  induction xs as [|x xs IH]; intros Hext; [done|].
  rewrite !filter_cons, IH by (intros y Hy; apply Hext; by right).
  destruct (decide (P x)) as [HP|HP], (decide (Q x)) as [HQ|HQ]; try done;
    exfalso; apply (Hext x) in HP || apply (Hext x) in HQ; done || by left.
Qed.

Lemma occurrences_of_line (i : Z) (j : nat) (ls : list Z) :
  (filter (fun o : Z * Z => Z.to_nat (dimacs2index o.2) = j)
     ((fun l => (i, l)) <$> ls)).*1
  = (fun _ => i) <$> stored_in j ls.
Proof.
  induction ls as [|l ls IH]; [done|].
  rewrite fmap_cons, filter_cons, stored_in_cons. simpl.
  case_decide; [rewrite !fmap_cons; simpl; f_equal|]; exact IH.
Qed.

Lemma literal_occurrences_nonzero (dimacs : list string) :
  ∀ i o, o ∈ literal_occurrences i dimacs → i ≤ o.1 ∧ o.2 ≠ 0.
Proof.
  induction dimacs as [|line rest IH]; intros i o Ho; simpl in Ho.
  - by apply elem_of_nil in Ho.
  - apply elem_of_app in Ho as [Ho|Ho].
    + apply list_elem_of_fmap in Ho as (l & -> & Hl). simpl.
      split; [lia | by eapply literals_nonzero].
    + apply IH in Ho as [? ?]. split; [lia | done].
Qed.

(** The slots and the wires after the clause loop, occurrence by occurrence. *)
Lemma read_clauses_exact (dimacs : list string) :
  ∀ i adj out adj' out',
    read_clauses dimacs i (adj, out) = Ok (adj', out') →
    (∀ j, slot adj' j
          = slot adj j
            ++ (filter (fun o : Z * Z => Z.to_nat (dimacs2index o.2) = j)
                  (literal_occurrences i dimacs)).*1)
    ∧ ∃ ws, out' = out ++ ws
            ∧ Forall2 (fun o w => link_literal_to_clause o.2 o.1 = Ok w)
                (literal_occurrences i dimacs) ws.
Proof.
  induction dimacs as [|line rest IH]; intros i adj out adj' out' H; simpl in H.
  - injection H as <- <-. split.
    + intros j. by rewrite app_nil_r.
    + exists []. by rewrite app_nil_r.
  - inv_bind H. destruct a as [adj1 out1].
    apply handle_tokens_Ok in Ha as (_ & Hslot1 & ws1 & -> & Hws1).
    apply IH in H as (Hslot & ws & -> & Hws). split.
    + intros j. simpl.
      rewrite Hslot, Hslot1, filter_app, fmap_app, occurrences_of_line.
      by rewrite <- app_assoc.
    + exists (ws1 ++ ws). split; [by rewrite <- app_assoc|]. simpl.
      apply Forall2_app; [|done]. by apply Forall2_fmap_l.
Qed.

Lemma occurrences_sorted (P : Z * Z → Prop) `{!∀ o, Decision (P o)}
  (dimacs : list string) :
  ∀ i, StronglySorted Z.le (filter P (literal_occurrences i dimacs)).*1.
Proof.
  induction dimacs as [|line rest IH]; intros i; simpl; [constructor|].
  rewrite filter_app, fmap_app. apply StronglySorted_app_2.
  - intros c1 c2 Hc1 Hc2.
    apply list_elem_of_fmap in Hc1 as (o1 & -> & Ho1).
    apply list_elem_of_fmap in Hc2 as (o2 & -> & Ho2).
    apply list_elem_of_filter in Ho1 as [_ Ho1].
    apply list_elem_of_filter in Ho2 as [_ Ho2].
    apply list_elem_of_fmap in Ho1 as (l & -> & _).
    apply literal_occurrences_nonzero in Ho2 as [? _]. simpl. lia.
  - induction (clause_literals line) as [|l ls IHl]; [constructor|].
    rewrite fmap_cons, filter_cons. case_decide; [|done].
    simpl. constructor; [done|]. apply Forall_forall. intros c Hc.
    apply list_elem_of_fmap in Hc as (o & -> & Ho).
    apply list_elem_of_filter in Ho as [_ Ho].
    apply list_elem_of_fmap in Ho as (l' & -> & _). simpl. lia.
  - apply IH.
Qed.

(** X5: after the clause loop the bucket of a nonzero literal holds the
    number of a line once for each occurrence of the literal on it, in
    reading order, so it is in non-decreasing order; and the loop has
    printed one wire for each occurrence of a nonzero literal, in reading
    order. *)
Theorem buckets_and_wires_in_reading_order (n : Z) (dimacs : list string)
  (out0 out : list directive) (adj : list (list Z)) :
  read_clauses dimacs 1 (empty_adjacency n, out0) = Ok (adj, out) →
  (∀ l, l ≠ 0 →
        bucket adj l
        = (filter (fun o : Z * Z => o.2 = l) (literal_occurrences 1 dimacs)).*1
        ∧ StronglySorted Z.le (bucket adj l))
  ∧ ∃ ws, out = out0 ++ ws
          ∧ length ws = length (literal_occurrences 1 dimacs)
          ∧ Forall2 (fun o w => link_literal_to_clause o.2 o.1 = Ok w)
              (literal_occurrences 1 dimacs) ws.
Proof.
  intros Hrun. apply read_clauses_exact in Hrun as (Hslot & ws & -> & Hws). split.
  - intros l Hl.
    assert (bucket adj l
            = (filter (fun o : Z * Z => o.2 = l)
                 (literal_occurrences 1 dimacs)).*1) as Heq.
    { unfold bucket. rewrite Hslot, slot_empty_adjacency. simpl. f_equal.
      apply filter_ext_elem. intros o [_ Ho]%literal_occurrences_nonzero. split.
      - intros Hidx. apply dimacs2index_inj; [done..|].
        pose proof (dimacs2index_nonneg l).
        pose proof (dimacs2index_nonneg o.2). lia.
      - by intros ->. }
    split; [done|]. rewrite Heq. apply occurrences_sorted.
  - exists ws. split; [done|]. split; [|done].
    symmetry. by eapply Forall2_length.
Qed.

Lemma buckets_and_wires_in_reading_order_witness :
  (∀ l, l ≠ 0 →
        bucket example_adjacency l
        = (filter (fun o : Z * Z => o.2 = l)
             (literal_occurrences 1 example_clauses)).*1
        ∧ StronglySorted Z.le (bucket example_adjacency l))
  ∧ ∃ ws, example_wires = [] ++ ws
          ∧ length ws = length (literal_occurrences 1 example_clauses)
          ∧ Forall2 (fun o w => link_literal_to_clause o.2 o.1 = Ok w)
              (literal_occurrences 1 example_clauses) ws.
Proof.
  apply (buckets_and_wires_in_reading_order 2 example_clauses [] example_wires
           example_adjacency).
  vm_compute. reflexivity.
Defined.

(** ** The lines of one slide *)

Lemma filter_all {A : Type} (P : A → Prop) `{!∀ x, Decision (P x)} (xs : list A) :
  Forall P xs → filter P xs = xs.
Proof.
  induction 1 as [|x xs Hx _ IH]; [done|].
  by rewrite filter_cons, decide_True, IH.
Qed.

Lemma filter_none {A : Type} (P : A → Prop) `{!∀ x, Decision (P x)} (xs : list A) :
  Forall (fun x => ¬ P x) xs → filter P xs = [].
Proof.
  induction 1 as [|x xs Hx _ IH]; [done|].
  by rewrite filter_cons, decide_False, IH.
Qed.

(** X6: on a slide no light is both on and off, no light line is printed
    twice, and every clause number in [1..m] gets a light line; when the
    numbers reached through the adjacency all lie in [1..m], the slide has
    exactly [m] light lines. *)
Theorem lights_partition (m : Z) (adj : list (list Z)) (line : string) (i : Z)
  (ds : list directive) :
  handle_solution_line m adj line i = Ok ds →
  NoDup (filter (fun d => is_light d = true) ds)
  ∧ (∀ c, ¬ (LightState c i true ∈ ds ∧ LightState c i false ∈ ds))
  ∧ (∀ c, 1 ≤ c ≤ m → LightState c i true ∈ ds ∨ LightState c i false ∈ ds)
  ∧ ((∀ c, c ∈ reachable adj (asserted_literals line) → 1 ≤ c ≤ m) →
     length (filter (fun d => is_light d = true) ds) = Z.to_nat m).
Proof.
  intros Hrun.
  set (sat := reachable adj (asserted_literals line)).
  assert (filter (fun d => is_light d = true) ds
          = ((fun c => LightState c i true) <$> elements sat)
            ++ ((fun c => LightState c i false)
                  <$> elements (list_to_set (seqZ 1 m) ∖ sat : gset Z)))
    as Hlights.
  { pose proof (handle_solution_line_Ok _ _ _ _ _ Hrun) as (_ & _ & ->).
    rewrite !filter_app.
    rewrite (filter_none _ [_]) by (by repeat constructor).
    rewrite (filter_none _ (_ <$> asserted_literals line))
      by (apply Forall_fmap, Forall_forall; by intros l _).
    rewrite !filter_all by (apply Forall_fmap, Forall_forall; by intros c _).
    done. }
  split; [|split; [|split]].
  - rewrite Hlights. apply NoDup_app. split; [|split].
    + apply NoDup_fmap_2_strong; [|apply NoDup_elements].
      by intros c1 c2 _ _ [= ->].
    + intros d (c & -> & _)%list_elem_of_fmap (c' & ? & _)%list_elem_of_fmap.
      done.
    + apply NoDup_fmap_2_strong; [|apply NoDup_elements].
      by intros c1 c2 _ _ [= ->].
  - intros c [Hon Hoff].
    apply (elem_of_solution_lights _ _ _ _ _ _ _ _ Hrun) in Hon as [_ Hon].
    apply (elem_of_solution_lights _ _ _ _ _ _ _ _ Hrun) in Hoff as [_ [_ Hoff]].
    done.
  - intros c Hc. destruct (decide (c ∈ sat)) as [Hin|Hout].
    + left. by apply (elem_of_solution_lights _ _ _ _ _ _ _ _ Hrun).
    + right. by apply (elem_of_solution_lights _ _ _ _ _ _ _ _ Hrun).
  - intros Hsub. rewrite Hlights, length_app, !length_fmap.
    change (length (elements sat)) with (size sat).
    change (length (elements (list_to_set (seqZ 1 m) ∖ sat : gset Z)))
      with (size (list_to_set (seqZ 1 m) ∖ sat : gset Z)).
    assert (sat ⊆ (list_to_set (seqZ 1 m) : gset Z)) as Hsubset.
    { intros c Hc. apply elem_of_list_to_set, elem_of_seqZ.
      specialize (Hsub c Hc). lia. }
    rewrite size_difference by done.
    pose proof (subseteq_size _ _ Hsubset) as Hle.
    rewrite size_list_to_set in * by apply NoDup_seqZ.
    rewrite length_seqZ in *. lia.
Qed.

Lemma lights_partition_witness :
  NoDup (filter (fun d => is_light d = true) example_slide)
  ∧ (∀ c, ¬ (LightState c 2 true ∈ example_slide
             ∧ LightState c 2 false ∈ example_slide))
  ∧ (∀ c, 1 ≤ c ≤ 2 →
          LightState c 2 true ∈ example_slide
          ∨ LightState c 2 false ∈ example_slide)
  ∧ ((∀ c, c ∈ reachable example_adjacency (asserted_literals example_line) →
           1 ≤ c ≤ 2) →
     length (filter (fun d => is_light d = true) example_slide) = Z.to_nat 2).
Proof.
  apply (lights_partition 2 example_adjacency example_line 2 example_slide).
  vm_compute. reflexivity.
Defined.

(** X7: the switch lines of a slide are, in the order of the solver line,
    one for each nonzero literal after the marker: switch [|l|] on for a
    positive literal, off for a negative one.  Nothing checks that the line
    is consistent: when it holds a literal and its negation, the slide
    shows that switch both on and off. *)
Theorem switch_states_follow_line (m : Z) (adj : list (list Z)) (line : string)
  (i : Z) (ds : list directive) :
  handle_solution_line m adj line i = Ok ds →
  filter (fun d => is_switch_state d = true) ds
  = (fun l => SwitchState (Z.abs l) i (bool_decide (0 < l)))
      <$> asserted_literals line
  ∧ (∀ v s on,
       SwitchState v s on ∈ ds ↔
       s = i ∧ 0 < v ∧ (if on then v else - v) ∈ asserted_literals line)
  ∧ (∀ l, l ∈ asserted_literals line → - l ∈ asserted_literals line →
          SwitchState (Z.abs l) i true ∈ ds
          ∧ SwitchState (Z.abs l) i false ∈ ds).
Proof.
  intros Hrun.
  pose proof (handle_solution_line_Ok _ _ _ _ _ Hrun) as (_ & _ & Hds).
  assert (∀ v s on,
            SwitchState v s on ∈ ds ↔
            s = i ∧ 0 < v ∧ (if on then v else - v) ∈ asserted_literals line)
    as Hmem.
  { intros v s on. rewrite Hds.
    rewrite !elem_of_app, !list_elem_of_fmap, list_elem_of_singleton. split.
    - intros [?|[(l & [= -> -> ->] & Hl)|[(c & ? & _)|(c & ? & _)]]]; try done.
      pose proof (literals_nonzero _ _ Hl) as Hnz. split; [done|].
      split; [lia|]. case_bool_decide.
      + by rewrite Z.abs_eq by lia.
      + replace (- Z.abs l) with l by lia. done.
    - intros (-> & Hv & Hl). right. left.
      exists (if on then v else - v). split; [|done].
      destruct on.
      + by rewrite Z.abs_eq, bool_decide_true by lia.
      + rewrite Z.abs_neq, bool_decide_false by lia. f_equal. lia. }
  split; [|split; [done|]].
  - rewrite Hds, !filter_app.
    rewrite (filter_none _ [_]) by (by repeat constructor).
    rewrite filter_all by (apply Forall_fmap, Forall_forall; by intros l _).
    rewrite !filter_none by (apply Forall_fmap, Forall_forall; by intros c _).
    by rewrite app_nil_r.
  - intros l Hl Hneg. pose proof (literals_nonzero _ _ Hl) as Hnz.
    split; apply Hmem; (split; [done|]); (split; [lia|]).
    + destruct (Z.lt_trichotomy l 0) as [?|[?|?]]; [|done|].
      * by rewrite Z.abs_neq by lia.
      * by rewrite Z.abs_eq by lia.
    + destruct (Z.lt_trichotomy l 0) as [?|[?|?]]; [|done|].
      * replace (- Z.abs l) with l by lia. done.
      * by rewrite Z.abs_eq by lia.
Qed.

Lemma switch_states_follow_line_witness :
  filter (fun d => is_switch_state d = true) example_slide
  = (fun l => SwitchState (Z.abs l) 2 (bool_decide (0 < l)))
      <$> asserted_literals example_line
  ∧ (∀ v s on,
       SwitchState v s on ∈ example_slide ↔
       s = 2 ∧ 0 < v ∧ (if on then v else - v) ∈ asserted_literals example_line)
  ∧ (∀ l, l ∈ asserted_literals example_line →
          - l ∈ asserted_literals example_line →
          SwitchState (Z.abs l) 2 true ∈ example_slide
          ∧ SwitchState (Z.abs l) 2 false ∈ example_slide).
Proof.
  apply (switch_states_follow_line 2 example_adjacency example_line 2 example_slide).
  vm_compute. reflexivity.
Defined.

(** ** Zeros, blank lines and comments *)

Lemma int_zero_token (z : string) (i : Z) :
  Py.int z = Ok 0 →
  (∀ st, handle_token i z st = Ok st)
  ∧ (∀ adj st, handle_solution_token adj i z st = Ok st).
Proof.
  intros Hz. split.
  - intros st. unfold handle_token. by rewrite Hz.
  - intros adj st. unfold handle_solution_token. by rewrite Hz.
Qed.

(** X8: a zero is skipped wherever it stands and ends nothing: the tokens
    after it on the same line are treated as if the zero were not there, on
    a clause line and on a solution line alike. *)
Theorem zero_is_not_a_terminator (t1 t2 : list string) (z : string) :
  Py.int z = Ok 0 →
  (∀ line line' i st,
     Py.split line = t1 ++ t2 → Py.split line' = t1 ++ z :: t2 →
     handle_clause line' i st = handle_clause line i st)
  ∧ (∀ m adj line line' i marker,
       Py.split line = marker :: t1 ++ t2 →
       Py.split line' = marker :: t1 ++ z :: t2 →
       handle_solution_line m adj line' i = handle_solution_line m adj line i).
Proof.
  intros Hz. split.
  - intros line line' i st Hline Hline'. unfold handle_clause.
    rewrite Hline, Hline', !for_each_app.
    destruct (for_each t1 (handle_token i) st) as [st1|e]; [|done].
    simpl. by rewrite (proj1 (int_zero_token z i Hz)).
  - intros m adj line line' i marker Hline Hline'.
    unfold handle_solution_line, solution_loop.
    rewrite Hline, Hline'. cbn [drop]. rewrite !drop_0, !for_each_app.
    destruct (for_each t1 (handle_solution_token adj i) _) as [st1|e]; [|done].
    simpl. by rewrite (proj2 (int_zero_token z i Hz)).
Qed.

Lemma zero_is_not_a_terminator_witness :
  handle_clause "1 0 2" 1 (empty_adjacency 2, [])
  = handle_clause "1 2" 1 (empty_adjacency 2, [])
  ∧ handle_solution_line 2 example_adjacency "v 1 0 2" 2
    = handle_solution_line 2 example_adjacency "v 1 2" 2.
Proof.
  assert (Py.int "0" = Ok 0) as Hz by (vm_compute; reflexivity).
  split.
  - apply (proj1 (zero_is_not_a_terminator ["1"] ["2"] "0" Hz));
      vm_compute; reflexivity.
  - apply (proj2 (zero_is_not_a_terminator ["1"] ["2"] "0" Hz)
             2 example_adjacency "v 1 2" "v 1 0 2" 2 "v");
      vm_compute; reflexivity.
Defined.

Lemma split_blank (line : string) : is_blank line = true → Py.split line = [].
Proof.
  unfold Py.split. induction line as [|c line IH]; [done|].
  simpl. intros [Hc Hline]%andb_true_iff. rewrite Hc. simpl. by apply IH.
Qed.

(** X9: a line of whitespace only, after the problem line, is a clause
    without literals: it draws no wire and stores nothing, and it takes a
    clause number, so the lines after it are numbered one higher. *)
Theorem blank_line_takes_a_number (line : string) :
  is_blank line = true →
  (∀ i st, handle_clause line i st = Ok st)
  ∧ (∀ rest i st,
       read_clauses (line :: rest) i st = read_clauses rest (i + 1) st).
Proof.
  intros Hblank.
  assert (∀ i st, handle_clause line i st = Ok st) as Hline.
  { intros i st. unfold handle_clause. by rewrite (split_blank line Hblank). }
  split; [done|]. intros rest i st. simpl. by rewrite Hline.
Qed.

Lemma blank_line_takes_a_number_witness :
  (∀ i st, handle_clause newline i st = Ok st)
  ∧ (∀ rest i st,
       read_clauses (newline :: rest) i st = read_clauses rest (i + 1) st).
Proof. apply (blank_line_takes_a_number newline). vm_compute. reflexivity. Defined.

Lemma comment_shape (comment : string) :
  String.prefix "c " comment = true →
  ∃ s, comment = String "c" (String " " s).
Proof.
  destruct comment as [|a comment]; [discriminate|].
  change (String.prefix "c " (String a comment))
    with (if ascii_dec "c" a then String.prefix " " comment else false).
  destruct (ascii_dec "c" a) as [<-|]; [|discriminate].
  destruct comment as [|b s]; [discriminate|].
  change (String.prefix " " (String b s))
    with (if ascii_dec " " b then String.prefix "" s else false).
  destruct (ascii_dec " " b) as [<-|]; [|discriminate]. eauto.
Qed.

Lemma read_clauses_app (before rest : list string) :
  ∀ i st,
    read_clauses (before ++ rest) i st
    = read_clauses before i st
      ≫= read_clauses rest (i + Z.of_nat (length before)).
Proof.
  induction before as [|line before IH]; intros i st; simpl.
  - by rewrite Z.add_0_r.
  - destruct (handle_clause line i st) as [st'|e]; simpl; [|done].
    rewrite IH. by replace (i + 1 + Z.of_nat (length before))
      with (i + Z.pos (Pos.of_succ_nat (length before))) by lia.
Qed.

(** X10: lines starting with ["c "] are skipped only in front of the
    problem line.  After it such a line is read as a clause, and its first
    token, [c], is not an integer: the run stops with [ValueError]. *)
Theorem comment_lines (comment : string) :
  String.prefix "c " comment = true →
  (∀ dimacs stdin, main (comment :: dimacs) stdin = main dimacs stdin)
  ∧ (∀ i st, handle_clause comment i st = Raise ValueError)
  ∧ (∀ before rest i st st',
       read_clauses before i st = Ok st' →
       read_clauses (before ++ comment :: rest) i st = Raise ValueError).
Proof.
  intros Hc.
  assert (∀ i st, handle_clause comment i st = Raise ValueError) as Hline.
  { intros i st. destruct (comment_shape comment Hc) as [s ->].
    unfold handle_clause.
    change (Py.split (String "c" (String " " s))) with ("c" :: Py.split s).
    done. }
  split; [|split; [done|]].
  - intros dimacs stdin. unfold main. simpl. by rewrite Hc.
  - intros before rest i st st' Hbefore.
    rewrite read_clauses_app, Hbefore. simpl. by rewrite Hline.
Qed.

Lemma comment_lines_witness :
  (∀ dimacs stdin,
     main (("c two switches" +:+ newline) :: dimacs) stdin = main dimacs stdin)
  ∧ (∀ i st, handle_clause ("c two switches" +:+ newline) i st = Raise ValueError)
  ∧ (∀ before rest i st st',
       read_clauses before i st = Ok st' →
       read_clauses (before ++ ("c two switches" +:+ newline) :: rest) i st
       = Raise ValueError).
Proof.
  apply (comment_lines ("c two switches" +:+ newline)). vm_compute. reflexivity.
Defined.

(** X11: a file without a problem line (an empty file, or comment lines
    only) fails the assertion on the problem line: [readline] returns the
    empty string at the end of the file, which starts neither with ["c "]
    nor with ["p cnf"]. *)
Theorem comment_only_file_fails (dimacs stdin : list string) :
  Forall (fun line => String.prefix "c " line = true) dimacs →
  main dimacs stdin = Raise AssertionError.
Proof.
  induction 1 as [|comment dimacs Hc _ IH]; [done|].
  unfold main in *. simpl. by rewrite Hc.
Qed.

Lemma comment_only_file_fails_witness :
  main ["c two switches" +:+ newline; "c and no formula" +:+ newline] long_stdin
  = Raise AssertionError.
Proof.
  apply comment_only_file_fails. repeat constructor.
Defined.

(** ** The static circuit *)





(** ** The circuit and the slides *)

Lemma slide_lines (m : Z) (adj : list (list Z)) (line : string) (i : Z)
  (ds : list directive) (d : directive) :
  handle_solution_line m adj line i = Ok ds → d ∈ ds →
  is_state d = true ∨ d = Text (newline +:+ "        % solution").
Proof.
  intros Hrun Hd. apply handle_solution_line_Ok in Hrun as (_ & _ & ->).
  rewrite !elem_of_app, !list_elem_of_fmap, list_elem_of_singleton in Hd.
  destruct Hd as [->|[(l & -> & _)|[(c & -> & _)|(c & -> & _)]]];
    [by right | by left..].
Qed.

(** X13: the lines of the solver only add slides: the output of a run is
    the output of the same file run without any solver line, with the
    slides put in just before the four closing lines.  The part in front of
    them holds no switch or light state, and the slides hold nothing but
    their comment lines and such states. *)
Theorem solutions_only_add_slides (dimacs stdin : list string)
  (out : list directive) :
  main dimacs stdin = Ok out →
  ∃ circuit slides,
    main dimacs [] = Ok (circuit ++ latex_footer)
    ∧ out = circuit ++ slides ++ latex_footer
    ∧ Forall (fun d => is_state d = false) circuit
    ∧ Forall (fun d => is_state d = true
                       ∨ d = Text (newline +:+ "        % solution")) slides.
Proof.
  intros Hmain.
  apply main_Ok in Hmain
    as (n & m & scale & adj & ws & sol & Hhead & Hscale & Hread & Hws & Hsol & ->).
  exists ((latex_header scale ++ declare_variables n ++ declare_clauses m) ++ ws), sol.
  split; [|split; [|split]].
  - unfold main. destruct (skip_comments dimacs) as [line rest].
    cbn [fst snd] in Hhead, Hread. rewrite Hhead. cbn [mbind result_bind].
    rewrite Hscale. cbn [mbind result_bind]. rewrite Hread. done.
  - apply app_assoc.
  - apply Forall_app. split; [apply static_lines_not_state|].
    eapply Forall_impl; [exact Hws|]. intros d Hd. by destruct d.
  - unfold wait_for_solution in Hsol. rewrite wait_loop_filter in Hsol.
    apply wait_loop_slides in Hsol as (dss & Hdss & ->);
      [|apply Forall_forall; by intros l [? _]%list_elem_of_filter].
    simpl. apply Forall_concat, Forall_forall. intros ds Hds.
    apply list_elem_of_lookup_1 in Hds as [k Hk].
    destruct (Forall2_lookup_r _ _ _ _ _ Hdss Hk) as (slide & _ & Hslide).
    apply Forall_forall. intros d Hd. by eapply slide_lines.
Qed.

Lemma solutions_only_add_slides_witness :
  ∃ circuit slides,
    main example_dimacs [] = Ok (circuit ++ latex_footer)
    ∧ example_static ++ example_wires ++ example_slide ++ latex_footer
      = circuit ++ slides ++ latex_footer
    ∧ Forall (fun d => is_state d = false) circuit
    ∧ Forall (fun d => is_state d = true
                       ∨ d = Text (newline +:+ "        % solution")) slides.
Proof.
  apply (solutions_only_add_slides example_dimacs [example_line]).
  vm_compute. reflexivity.
Defined.
